(** * coderik.nl: the page-head metadata resolver and the header controller

    A shallow embedding of the frontmatter of the [BaseHead] page component
    (title composition, image resolution, canonical URL formatting), of the
    [Header] component's script (header social links, scroll listener, mount
    check, navigation drawer) and of the part of [site-config.ts] they read.

    JavaScript strings are sequences of UTF-16 code units; they are modelled
    by [string].  Every character the code inspects ('/', '?', 'i', '-', ' ',
    '|') is ASCII, and an ASCII byte never occurs inside the encoding of
    another character, so searching and splitting behave alike on both. *)

From Stdlib Require Import ZArith Lia Bool Ascii String.
From stdpp Require Import base list strings.

Local Open Scope string_scope.

(** ** JavaScript strings, regular expressions and arrays *)

Module JS.

(** [s.startsWith(search)]. *)
Definition String_startsWith (s search : string) : bool :=
  String.prefix search s.

(** [s.includes(search)]: [search] occurs at some position of [s]. *)
Fixpoint String_includes (s search : string) : bool :=
  String_startsWith s search
  || match s with
     | EmptyString => false
     | String _ s' => String_includes s' search
     end.

(** [s.endsWith(search)]: [search] is the input that remains at some
    position of [s]. *)
Fixpoint String_endsWith (s search : string) : bool :=
  String.eqb s search
  || match s with
     | EmptyString => false
     | String _ s' => String_endsWith s' search
     end.

(** [s.substring(n)]. *)
Fixpoint String_drop (n : nat) (s : string) : string :=
  match n, s with
  | O, _ => s
  | S _, EmptyString => EmptyString
  | S n', String _ s' => String_drop n' s'
  end.

(** A regular expression that looks at the input only from the position
    it is tried at onward is given by its matcher: the length of the match
    that starts at the head of the remaining input, if there is one. *)
Definition RegExp := string -> option nat.

(** The literal [/\/?$/] (no flags): a greedy optional slash, then the
    end-of-input assertion.  With the slash consumed, [$] needs the rest
    to be empty; on backtracking to the empty match, [$] needs the
    remaining input itself to be empty. *)
Definition re_optional_slash_at_end : RegExp := fun rest =>
  match rest with
  | String "/"%char EmptyString => Some 1%nat
  | EmptyString => Some 0%nat
  | String _ _ => None
  end.

(** [s.replace(re, replacement)] for a regular expression without the [g]
    flag and a replacement without [$] patterns: the positions are tried
    from the left, the first match is replaced, and a string without a
    match is returned as it is.  Strings are immutable: the receiver is
    not changed. *)
Fixpoint String_replace (re : RegExp) (s replacement : string) : string :=
  match re s with
  | Some n => replacement +:+ String_drop n s
  | None =>
      match s with
      | EmptyString => EmptyString
      | String c s' => String c (String_replace re s' replacement)
      end
  end.

(** [Boolean(v)] for a value that is a string or [undefined]. *)
Definition Boolean_string (v : option string) : bool :=
  match v with
  | None => false
  | Some s => negb (String.eqb s "")
  end.

(** [parts.join(sep)]; an [undefined] element is joined as the empty
    string. *)
Fixpoint Array_join (sep : string) (parts : list (option string)) : string :=
  match parts with
  | [] => ""
  | [x] => default "" x
  | x :: rest => default "" x +:+ sep +:+ Array_join sep rest
  end.

(** Abrupt and normal completion of an evaluation. *)
Inductive JSError := TypeError.

Inductive completion (A : Type) : Type :=
| Normal (a : A)
| Throw (e : JSError).
Arguments Normal {A} a.
Arguments Throw {A} e.

(** Sequencing: a thrown error leaves the rest unevaluated. *)
#[global] Instance completion_ret : MRet completion := fun A a => Normal a.
#[global] Instance completion_bind : MBind completion := fun A B k c =>
  match c with
  | Normal a => k a
  | Throw e => Throw e
  end.

End JS.

(** ** site-config.ts *)

Module SiteConfig.

(** The [header] field of a social link: absent, a boolean or a string. *)
Inductive HeaderFlag :=
| HeaderAbsent
| HeaderBool (b : bool)
| HeaderString (s : string).

Record SocialLink := {
  sl_text : string;
  sl_href : string;
  sl_icon : option string;
  sl_header : HeaderFlag;
}.

Record NavLink := {
  nl_text : string;
  nl_href : string;
}.

Record Image := {
  src : string;
  alt : option string;
}.

Record Config := {
  title : string;
  image : option Image;
  socialLinks : list SocialLink;
  header_navLinks : list NavLink;
}.

Definition siteConfig : Config := {|
  title := "Coderik";
  image := None;
  socialLinks :=
    [ {| sl_text := "GitHub";
         sl_href := "https://github.com/erikvdven";
         sl_icon := Some "i-simple-icons-github";
         sl_header := HeaderString "i-ri-github-line" |};
      {| sl_text := "Linkedin";
         sl_href := "";
         sl_icon := Some "i-simple-icons-linkedin";
         sl_header := HeaderAbsent |} ];
  header_navLinks :=
    [ {| nl_text := "Blog"; nl_href := "/blog" |};
      {| nl_text := "About"; nl_href := "/" |} ];
|}.

End SiteConfig.

(** ** BaseHead: the metadata resolver *)

Module BaseHead.
Import JS SiteConfig.

Inductive PageType := website | article.

Record Props := {
  p_title : option string;
  p_description : option string;
  p_image : option Image;
  p_pageType : option PageType;
}.

(** [[Astro.props.title, siteConfig.title].filter(Boolean).join(' | ')]. *)
Definition title (props_title : option string) (site_title : string) : string :=
  Array_join " | " (List.filter Boolean_string [props_title; Some site_title]).

(** The argument of [formatCanonicalURL]: a string, or a URL object, which
    [toString] serialises to its href. *)
Inductive StringOrURL :=
| OfString (s : string)
| OfURL (href : string).

Definition toString (url : StringOrURL) : string :=
  match url with
  | OfString s => s
  | OfURL href => href
  end.

(** [formatCanonicalURL].  The statement guarded by [hasQueryParams]
    computes a replacement and drops it. *)
Definition formatCanonicalURL (url : StringOrURL) : string :=
  let path := toString url in
  let hasQueryParams := String_includes path "?" in
  let _ := if hasQueryParams
           then String_replace re_optional_slash_at_end path ""
           else path in
  String_replace re_optional_slash_at_end path
                 (if hasQueryParams then "" else "/").

(** A string ends with exactly one slash: with a slash, not with two. *)
Definition ends_with_one_slash (s : string) : bool :=
  String_endsWith s "/" && negb (String_endsWith s "//").

(** What the frontmatter hands to the template. *)
Record Head := {
  h_title : string;
  h_description : string;
  h_pageType : PageType;
  h_resolvedImage : option Image;
  h_canonical : string;
}.

(** The [Astro] global as the frontmatter reads it; [site] is the href of
    the base URL set in astro.config.ts. *)
Record Astro := {
  props : Props;
  request_url : string;
  site : string;
}.

(** [image = siteConfig.image] in the destructuring of [Astro.props]: the
    default stands in for an absent property. *)
Definition image_or_default (cfg : Config) (p : Props) : option Image :=
  match p_image p with
  | Some img => Some img
  | None => SiteConfig.image cfg
  end.

Section Frontmatter.

(** [new URL(input, base).toString()].  The constructor belongs to the
    platform: it returns the serialised URL or throws a TypeError. *)
Variable URL_new : string -> string -> completion string.

(** [image?.src ? { src: new URL(image.src, Astro.site).toString(),
    alt: image.alt } : undefined]. *)
Definition resolvedImage (image : option Image) (base : string)
  : completion (option Image) :=
  match image with
  | Some img =>
      if Boolean_string (Some (src img))
      then href ← URL_new (src img) base;
           mret (Some {| src := href; alt := alt img |})
      else mret None
  | None => mret None
  end.

(** The frontmatter, top to bottom. *)
Definition frontmatter (cfg : Config) (astro : Astro) : completion Head :=
  let description := default "" (p_description (props astro)) in
  let image := image_or_default cfg (props astro) in
  let pageType := default website (p_pageType (props astro)) in
  let title := title (p_title (props astro)) (SiteConfig.title cfg) in
  resolved ← resolvedImage image (site astro);
  canonicalURL ← URL_new (request_url astro) (site astro);
  mret {| h_title := title;
          h_description := description;
          h_pageType := pageType;
          h_resolvedImage := resolved;
          h_canonical := formatCanonicalURL (OfURL canonicalURL) |}.

End Frontmatter.

End BaseHead.

(** ** The URL constructor's failure on a missing host

    [new URL(input, base)] runs the basic URL parser of the URL Standard,
    which is platform code.  Followed here is the one route on which an input
    without a scheme is rejected against a base whose scheme is special and
    not [file]: scheme start state, no scheme state, relative state, relative
    slash state, special authority ignore slashes state, authority state,
    host state.  [host_missing input base = true] says that the parser
    returns failure there, so that the constructor throws; [false] says
    nothing: the input leaves the states followed here. *)

Module URLStandard.
Import JS.

Definition is_ASCII_alpha (c : ascii) : bool :=
  let n := nat_of_ascii c in
  ((65 <=? n) && (n <=? 90) || (97 <=? n) && (n <=? 122))%nat.

(** C0 controls and space are stripped or removed before parsing; inputs
    that hold one are left aside. *)
Fixpoint no_C0_or_space (s : string) : bool :=
  match s with
  | EmptyString => true
  | String c s' => (32 <? nat_of_ascii c)%nat && no_C0_or_space s'
  end.

(** The scheme of a serialised URL: what precedes the first colon. *)
Fixpoint scheme_of (href : string) : string :=
  match href with
  | EmptyString => EmptyString
  | String c s' => if Ascii.eqb c ":" then EmptyString else String c (scheme_of s')
  end.

Definition special_not_file (scheme : string) : bool :=
  existsb (String.eqb scheme) ["ftp"; "http"; "https"; "ws"; "wss"].

Definition is_slash (c : ascii) : bool :=
  Ascii.eqb c "/" || Ascii.eqb c "092".

(** Special authority ignore slashes state: further slashes are skipped. *)
Fixpoint skip_slashes (s : string) : string :=
  match s with
  | String c s' => if is_slash c then skip_slashes s' else s
  | EmptyString => s
  end.

(** The code points that end the authority of a special URL. *)
Definition ends_authority (c : ascii) : bool :=
  is_slash c || Ascii.eqb c "?" || Ascii.eqb c "#".

(** Authority state: the buffer runs up to the end of the authority. *)
Fixpoint authority_buffer (s : string) : string :=
  match s with
  | String c s' => if ends_authority c then EmptyString else String c (authority_buffer s')
  | EmptyString => EmptyString
  end.

(** Host state, entered at the start of the buffer: with the host buffer
    still empty, a colon, the end of the input or the end of the authority
    is a host-missing failure. *)
Definition host_state_fails (s : string) : bool :=
  match s with
  | EmptyString => true
  | String c _ => Ascii.eqb c ":" || ends_authority c
  end.

Definition host_missing (input base : string) : bool :=
  no_C0_or_space input
  && special_not_file (scheme_of base)
  && match input with
     | String c1 (String c2 rest) =>
         (* scheme start state: c1 is no letter, so no scheme state, and
            from there the relative state, where c1 is a slash *)
         negb (is_ASCII_alpha c1) && is_slash c1
         (* relative slash state *)
         && is_slash c2
         (* authority state: credentials are left aside *)
         && negb (String_includes (authority_buffer (skip_slashes rest)) "@")
         && host_state_fails (skip_slashes rest)
     | _ => false
     end.

(** A constructor follows the Standard on this route. *)
Definition conforms (URL_new : string -> string -> completion string) : Prop :=
  forall input base,
    host_missing input base = true -> URL_new input base = Throw TypeError.

End URLStandard.

(** ** Header: social links, scroll listener, mount check, drawer *)

Module Header.
Import JS SiteConfig.

(** *** The header's social links *)

(** Truthiness of a [header] field. *)
Definition truthy (h : HeaderFlag) : bool :=
  match h with
  | HeaderAbsent => false
  | HeaderBool b => b
  | HeaderString s => negb (String.eqb s "")
  end.

Inductive JSType := type_undefined | type_boolean | type_string.

Definition typeof (h : HeaderFlag) : JSType :=
  match h with
  | HeaderAbsent => type_undefined
  | HeaderBool _ => type_boolean
  | HeaderString _ => type_string
  end.

Definition is_type (t u : JSType) : bool :=
  match t, u with
  | type_undefined, type_undefined
  | type_boolean, type_boolean
  | type_string, type_string => true
  | _, _ => false
  end.

(** The callback handed to [filter]: the entry as the call leaves it, and
    the truthiness of what the call returns ([link] is an object, which is
    truthy). *)
Definition socialLinks_callback (link : SocialLink) : SocialLink * bool :=
  if truthy (sl_header link) && is_type (typeof (sl_header link)) type_boolean
  then (link, true)
  else if truthy (sl_header link) && is_type (typeof (sl_header link)) type_string
  then
    let icon' := match sl_header link with
                 | HeaderString h => if String_includes h "i-" then Some h else sl_icon link
                 | _ => sl_icon link
                 end in
    ({| sl_text := sl_text link; sl_href := sl_href link;
        sl_icon := icon'; sl_header := sl_header link |}, true)
  else (link, false).

(** [Array.prototype.filter] over an array of objects that the callback
    may write to.  The array is threaded through as the store; the
    filtered array holds references to the entries kept (their indices in
    the store), not copies. *)
Fixpoint Array_filter (callback : SocialLink -> SocialLink * bool)
         (index : nat) (links : list SocialLink) : list SocialLink * list nat :=
  match links with
  | [] => ([], [])
  | link :: rest =>
      let (link', keep) := callback link in
      let (rest', kept) := Array_filter callback (S index) rest in
      (link' :: rest', if keep then index :: kept else kept)
  end.

(** The [socialLinks] computed property: the configuration after the
    evaluation, and the entries the header shows. *)
Definition socialLinks (cfg : Config) : Config * list nat :=
  let (links', kept) :=
    Array_filter socialLinks_callback 0%nat (SiteConfig.socialLinks cfg) in
  ({| title := title cfg; image := image cfg;
      socialLinks := links';
      header_navLinks := header_navLinks cfg |}, kept).

(** The [icon] of an entry once the list was computed: the [header] when
    that is a string containing ["i-"], the [icon] it had otherwise. *)
Definition icon_after (link : SocialLink) : option string :=
  match sl_header link with
  | HeaderString h => if String_includes h "i-" then Some h else sl_icon link
  | _ => sl_icon link
  end.

(** [siteConfig.header.navLinks || []]. *)
Definition navLinks (cfg : Config) : list NavLink := header_navLinks cfg.

(** *** The header element and its class list *)

(** [classList.contains], [classList.add], [classList.remove]. *)
Definition classList_contains (token : string) (classes : list string) : bool :=
  existsb (String.eqb token) classes.

Definition classList_add (token : string) (classes : list string) : list string :=
  if classList_contains token classes then classes else classes ++ [token].

Definition classList_remove (token : string) (classes : list string) : list string :=
  List.filter (fun t => negb (String.eqb token t)) classes.

Local Open Scope Z_scope.

(** The controller's state: [oldScroll], the class list of [#header], and
    the value [scroll] had when the template was last rendered. *)
Record State := {
  oldScroll : Z;
  classList : list string;
  rendered_scroll : Z;
}.

Definition set_classList (f : list string -> list string) (st : State) : State :=
  {| oldScroll := oldScroll st;
     classList := f (classList st);
     rendered_scroll := rendered_scroll st |}.

Definition set_oldScroll (v : Z) (st : State) : State :=
  {| oldScroll := v;
     classList := classList st;
     rendered_scroll := rendered_scroll st |}.

Definition hidden (st : State) : bool :=
  classList_contains "header-hide" (classList st).

Definition backgroundSolid (st : State) : bool :=
  classList_contains "header-bg-color" (classList st).

(** *** The scroll listener

    [scroll] is the value of [scroll.value] when the listener runs. *)
Definition scroll_listener (scroll : Z) (st : State) : State :=
  if scroll <? 150
  then set_classList (classList_remove "header-hide") st
  else
    let st1 :=
      if scroll - oldScroll st >? 150
      then set_oldScroll scroll (set_classList (classList_add "header-hide") st)
      else st in
    let st2 :=
      if oldScroll st1 - scroll >? 150
      then set_oldScroll scroll (set_classList (classList_remove "header-hide") st1)
      else st1 in
    st2.

(** A sequence of scroll events, oldest first. *)
Definition scroll_events (events : list Z) (st : State) : State :=
  fold_left (fun acc s => scroll_listener s acc) events st.

(** *** The template's class binding and the mount hook *)

Definition header_static_class : list string :=
  ["!sticky"; "top-0"; "z-899"; "max-w-3xl"; "mx-auto"; "h-20"; "px-6";
   "flex"; "justify-between"; "items-center"; "relative"].

(** [:class="{ 'header-bg-color': scroll > 20 }"]. *)
Definition header_class_binding (scroll : Z) : bool := 20 <? scroll.

(** The [class] of the header as the template renders it. *)
Definition header_class (scroll : Z) : list string :=
  header_static_class
  ++ (if header_class_binding scroll then ["header-bg-color"] else []).

(** A render after [scroll] changed.  The framework compares the class of
    the new render with that of the previous one; when they differ it
    assigns the new class to the element, and it leaves the element alone
    when they are equal. *)
Definition render (scroll : Z) (st : State) : State :=
  {| oldScroll := oldScroll st;
     classList := if bool_decide (header_class (rendered_scroll st) = header_class scroll)
                  then classList st
                  else header_class scroll;
     rendered_scroll := scroll |}.

(** The part of the [onMounted] hook that concerns the header element:
    without the element the hook returns early; with it, the check on
    [document.documentElement.scrollTop] runs once and the scroll listener
    is registered.  The result tells whether the listener was registered. *)
Definition onMounted (headerEl : bool) (scrollTop : Z) (st : State) : State * bool :=
  if negb headerEl then (st, false)
  else
    let st' := if scrollTop >? 100
               then set_classList (classList_add "header-bg-color") st
               else st in
    (st', true).

(** Mounting: the first render, with [scroll] holding [scroll0] (which
    also initialises [oldScroll]), then the hook. *)
Definition mount (scroll0 scrollTop : Z) : State :=
  fst (onMounted true scrollTop
         {| oldScroll := scroll0;
            classList := header_class scroll0;
            rendered_scroll := scroll0 |}).

(** *** The navigation drawer *)

(** The inline styles the toggle reads and writes: [style.transform] of
    [.nav-drawer] and [style.display] of [.nav-drawer-mask]; an unset
    property reads as the empty string.  [None] is an element that
    [querySelector] does not find. *)
Record Document := {
  nav_drawer : option string;
  nav_drawer_mask : option string;
}.

Definition toggleNavDrawer (doc : Document) : Document :=
  match nav_drawer doc, nav_drawer_mask doc with
  | Some transform, Some _ =>
      if String.eqb transform "translateX(0%)"
      then {| nav_drawer := Some "translateX(-100%)"; nav_drawer_mask := Some "none" |}
      else {| nav_drawer := Some "translateX(0%)"; nav_drawer_mask := Some "block" |}
  | _, _ => doc
  end.

(** The document as the template renders it: no inline style. *)
Definition initial_document : Document :=
  {| nav_drawer := Some ""; nav_drawer_mask := Some "" |}.

(** The two documents the toggle writes. *)
Definition document_open : Document :=
  {| nav_drawer := Some "translateX(0%)"; nav_drawer_mask := Some "block" |}.

Definition document_closed : Document :=
  {| nav_drawer := Some "translateX(-100%)"; nav_drawer_mask := Some "none" |}.

(** A freshly rendered document in general: an element is in it without
    inline style, or not in it. *)
Definition rendered (doc : Document) : Prop :=
  (nav_drawer doc = Some "" \/ nav_drawer doc = None)
  /\ (nav_drawer_mask doc = Some "" \/ nav_drawer_mask doc = None).

(** The scoped style sheet: [.nav-drawer { transform: translateX(-100%) }]
    and [.nav-drawer-mask { display: none }].  An inline declaration wins
    over the sheet. *)
Definition cascade (sheet inline : string) : string :=
  if String.eqb inline "" then sheet else inline.

(** What is on screen: the transform of the drawer and the display of the
    mask after the cascade. *)
Record Drawer := {
  drawer_transform : option string;
  mask_display : option string;
}.

Definition shown (doc : Document) : Drawer :=
  {| drawer_transform := cascade "translateX(-100%)" <$> nav_drawer doc;
     mask_display := cascade "none" <$> nav_drawer_mask doc |}.

Definition closed : Drawer :=
  {| drawer_transform := Some "translateX(-100%)"; mask_display := Some "none" |}.

Definition open : Drawer :=
  {| drawer_transform := Some "translateX(0%)"; mask_display := Some "block" |}.

(** The documents the toggle can be called on: a rendered one and those
    that toggles lead to. *)
Inductive reachable : Document -> Prop :=
| reachable_rendered doc : rendered doc -> reachable doc
| reachable_toggle doc : reachable doc -> reachable (toggleNavDrawer doc).

End Header.

(** ** BaseHead: the page metadata the template emits *)

Module HeadTemplate.
Import JS SiteConfig BaseHead.

(** The tags of the template from [<link rel="canonical">] down to the
    Twitter block. *)
Inductive Tag :=
| LinkRel (rel href : string)
| MetaName (name content : string)
| MetaProperty (property content : string).

Definition pageType_content (t : PageType) : string :=
  match t with
  | website => "website"
  | article => "article"
  end.

(** [{value && <meta ... content={value} />}]: the tag is rendered when the
    value is a non-empty string, and nothing is rendered for [undefined] or
    the empty string. *)
Definition when_truthy (value : option string) (tag : string -> Tag) : list Tag :=
  match value with
  | Some v => if Boolean_string (Some v) then [tag v] else []
  | None => []
  end.

(** [resolvedImage?.src] and [resolvedImage?.alt]. *)
Definition resolved_src (h : Head) : option string := src <$> h_resolvedImage h.
Definition resolved_alt (h : Head) : option string := h_resolvedImage h ≫= alt.

Definition page_metadata (h : Head) : list Tag :=
  [ LinkRel "canonical" (h_canonical h);
    MetaName "description" (h_description h);
    MetaProperty "og:type" (pageType_content (h_pageType h));
    MetaProperty "og:url" (h_canonical h);
    MetaProperty "og:title" (h_title h);
    MetaProperty "og:description" (h_description h) ]
  ++ when_truthy (resolved_src h) (MetaProperty "og:image")
  ++ when_truthy (resolved_alt h) (MetaProperty "og:image:alt")
  ++ [ MetaProperty "twitter:card" "summary_large_image";
       MetaProperty "twitter:url" (h_canonical h);
       MetaProperty "twitter:title" (h_title h);
       MetaProperty "twitter:description" (h_description h) ]
  ++ when_truthy (resolved_src h) (MetaProperty "twitter:image")
  ++ when_truthy (resolved_alt h) (MetaName "twitter:image:alt").

(** The content of the first [<meta property=...>], respectively
    [<meta name=...>], with the given key. *)
Fixpoint property_content (key : string) (tags : list Tag) : option string :=
  match tags with
  | [] => None
  | MetaProperty k v :: rest =>
      if String.eqb k key then Some v else property_content key rest
  | _ :: rest => property_content key rest
  end.

Fixpoint name_content (key : string) (tags : list Tag) : option string :=
  match tags with
  | [] => None
  | MetaName k v :: rest =>
      if String.eqb k key then Some v else name_content key rest
  | _ :: rest => name_content key rest
  end.

(** A value as a tag shows it: absent when it is [undefined] or empty. *)
Definition shown_value (value : option string) : option string :=
  match value with
  | Some v => if Boolean_string (Some v) then Some v else None
  | None => None
  end.

End HeadTemplate.

(** ** Header: the template's list of social links, repeated toggles, and
    the scroll transitions as the specification words them *)

Module HeaderView.
Import JS SiteConfig Header.
Local Open Scope Z_scope.

(** [v-for="link in socialLinks"]: the entries the references of the
    computed list point to, as they are after the computation. *)
Definition rendered_socialLinks (cfg : Config) : list SocialLink :=
  omap (fun i => SiteConfig.socialLinks (Header.socialLinks cfg).1 !! i)
       (Header.socialLinks cfg).2.

(** [n] clicks on the menu button. *)
Fixpoint toggles (n : nat) (doc : Document) : Document :=
  match n with
  | O => doc
  | S n' => toggleNavDrawer (toggles n' doc)
  end.

(** The scroll transitions in the words of the specification: below 150
    force visible; else if [s - s0 > 150] hide and record; else if
    [s0 - s > 150] show and record; otherwise no change. *)
Definition scroll_transition (s : Z) (st : State) : State :=
  if s <? 150
  then set_classList (classList_remove "header-hide") st
  else if s - oldScroll st >? 150
  then set_oldScroll s (set_classList (classList_add "header-hide") st)
  else if oldScroll st - s >? 150
  then set_oldScroll s (set_classList (classList_remove "header-hide") st)
  else st.

End HeaderView.

(** * Properties *)

(** ** Strings *)

Section StringFacts.
Import JS.

(** [+:+] is kept folded by [simpl]; its two equations. *)
Lemma append_nil_l (t : string) : "" +:+ t = t.
Proof. reflexivity. Qed.

Lemma append_cons (c : ascii) (s t : string) :
  String c s +:+ t = String c (s +:+ t).
Proof. reflexivity. Qed.

Lemma append_empty_r (s : string) : s +:+ "" = s.
Proof.
  induction s as [|c s IH]; [reflexivity|].
  now rewrite append_cons, IH.
Qed.

Lemma append_assoc (s t u : string) : (s +:+ t) +:+ u = s +:+ (t +:+ u).
Proof.
  induction s as [|c s IH]; [reflexivity|].
  now rewrite !append_cons, IH.
Qed.

Lemma append_snoc_not_empty (s : string) (c : ascii) : s +:+ String c "" <> "".
Proof. destruct s; discriminate. Qed.

Lemma append_snoc_inj (s t : string) (c d : ascii) :
  s +:+ String c "" = t +:+ String d "" -> s = t /\ c = d.
Proof.
  revert t; induction s as [|a s IH]; intros [|b t] H.
  - injection H as ->. now split.
  - rewrite append_nil_l, append_cons in H. injection H as _ H.
    symmetry in H. now apply append_snoc_not_empty in H.
  - rewrite append_nil_l, append_cons in H. injection H as _ H.
    now apply append_snoc_not_empty in H.
  - rewrite !append_cons in H. injection H as -> H.
    apply IH in H as [-> ->]. now split.
Qed.

Lemma string_snoc (c : ascii) (s : string) :
  exists s' d, String c s = s' +:+ String d "".
Proof.
  revert c; induction s as [|a s IH]; intros c.
  - now exists "", c.
  - destruct (IH a) as (s' & d & E). exists (String c s'), d.
    now rewrite append_cons, <- E.
Qed.

(** The matcher of [/\/?$/] where no match starts. *)
Lemma re_optional_slash_at_end_none (c : ascii) (s : string) :
  String c s <> "/" -> re_optional_slash_at_end (String c s) = None.
Proof.
  intros H. destruct s as [|d s].
  - destruct c as [[] [] [] [] [] [] [] []]; try reflexivity. now destruct H.
  - destruct c as [[] [] [] [] [] [] [] []]; reflexivity.
Qed.

Lemma endsWith_nil (t : string) :
  String_endsWith "" t = String.eqb "" t.
Proof. unfold String_endsWith. apply orb_false_r. Qed.

Lemma endsWith_cons (c : ascii) (s t : string) :
  String_endsWith (String c s) t
  = String.eqb (String c s) t || String_endsWith s t.
Proof. reflexivity. Qed.

Lemma endsWith_spec (s t : string) :
  String_endsWith s t = true <-> exists p, s = p +:+ t.
Proof.
  induction s as [|c s IH].
  - rewrite endsWith_nil, String.eqb_eq. split.
    + intros <-. now exists "".
    + intros [p H]. destruct p; [exact H | discriminate].
  - rewrite endsWith_cons, orb_true_iff, String.eqb_eq, IH. split.
    + intros [<- | [p ->]]; [now exists "" | now exists (String c p)].
    + intros [[|a p] H].
      * now left.
      * rewrite append_cons in H. injection H as -> ->. right. now exists p.
Qed.

Lemma endsWith_append (p t : string) : String_endsWith (p +:+ t) t = true.
Proof. apply endsWith_spec. now exists p. Qed.

Lemma String_replace_here (re : RegExp) (s replacement : string) (n : nat) :
  re s = Some n ->
  String_replace re s replacement = replacement +:+ String_drop n s.
Proof. intros H. destruct s; simpl; now rewrite H. Qed.

Lemma String_replace_later (re : RegExp) (c : ascii) (s replacement : string) :
  re (String c s) = None ->
  String_replace re (String c s) replacement
  = String c (String_replace re s replacement).
Proof. intros H. simpl. now rewrite H. Qed.

(** A trailing slash is replaced. *)
Lemma String_replace_trailing_slash (p replacement : string) :
  String_replace re_optional_slash_at_end (p +:+ "/") replacement
  = p +:+ replacement.
Proof.
  induction p as [|c p IH].
  - rewrite !append_nil_l, (String_replace_here _ _ _ 1) by reflexivity.
    apply append_empty_r.
  - rewrite !append_cons, String_replace_later.
    + now rewrite IH.
    + apply re_optional_slash_at_end_none.
      intros E. injection E as _ E. now apply append_snoc_not_empty in E.
Qed.

(** Without a trailing slash the empty match at the end is replaced. *)
Lemma String_replace_no_trailing_slash (s replacement : string) :
  String_endsWith s "/" = false ->
  String_replace re_optional_slash_at_end s replacement = s +:+ replacement.
Proof.
  induction s as [|c s IH]; intros H.
  - rewrite (String_replace_here _ _ _ 0) by reflexivity.
    apply append_empty_r.
  - rewrite endsWith_cons in H. apply orb_false_iff in H as [Hne Hs].
    rewrite String_replace_later.
    + now rewrite IH, append_cons.
    + apply re_optional_slash_at_end_none.
      intros E. rewrite E in Hne. discriminate.
Qed.

Lemma startsWith_cons (q c : ascii) (s t : string) :
  String_startsWith (String c s) (String q t)
  = Ascii.eqb q c && String_startsWith s t.
Proof.
  unfold String_startsWith. cbn [String.prefix].
  destruct (ascii_dec q c) as [->|Hne].
  - now rewrite Ascii.eqb_refl.
  - apply Ascii.eqb_neq in Hne. now rewrite Hne.
Qed.

Lemma startsWith_char (q c : ascii) (s : string) :
  String_startsWith (String c s) (String q "") = Ascii.eqb q c.
Proof.
  rewrite startsWith_cons. unfold String_startsWith.
  destruct s; apply andb_true_r.
Qed.

Lemma includes_char_cons (q c : ascii) (s : string) :
  String_includes (String c s) (String q "")
  = Ascii.eqb q c || String_includes s (String q "").
Proof.
  change (String_includes (String c s) (String q ""))
    with (String_startsWith (String c s) (String q "")
          || String_includes s (String q "")).
  now rewrite startsWith_char.
Qed.

Lemma includes_char_append (q : ascii) (s t : string) :
  String_includes (s +:+ t) (String q "")
  = String_includes s (String q "") || String_includes t (String q "").
Proof.
  induction s as [|c s IH].
  - reflexivity.
  - rewrite append_cons.
    rewrite !includes_char_cons, IH. now rewrite orb_assoc.
Qed.

End StringFacts.

(** ** The canonical URL *)

Section CanonicalURL.
Import JS BaseHead.

Lemma formatCanonicalURL_query (url : StringOrURL) :
  String_includes (toString url) "?" = true ->
  formatCanonicalURL url
  = String_replace re_optional_slash_at_end (toString url) "".
Proof. intros H. unfold formatCanonicalURL. cbv zeta. now rewrite H. Qed.

Lemma formatCanonicalURL_no_query (url : StringOrURL) :
  String_includes (toString url) "?" = false ->
  formatCanonicalURL url
  = String_replace re_optional_slash_at_end (toString url) "/".
Proof. intros H. unfold formatCanonicalURL. cbv zeta. now rewrite H. Qed.

Lemma trailing_slash_cases (s : string) :
  (exists p, s = p +:+ "/") \/ String_endsWith s "/" = false.
Proof.
  destruct (String_endsWith s "/") eqn:E; [left | now right].
  now apply endsWith_spec.
Qed.

Lemma endsWith_two_slashes (s : string) :
  String_endsWith (s +:+ "/") "//" = String_endsWith s "/".
Proof.
  apply eq_true_iff_eq. rewrite !endsWith_spec. split.
  - intros [p H]. exists p.
    change "//" with ("/" +:+ "/") in H. rewrite <- append_assoc in H.
    now apply append_snoc_inj in H as [-> _].
  - intros [p ->]. exists p. now rewrite append_assoc.
Qed.

Lemma endsWith_two_slashes_one (s : string) :
  String_endsWith s "/" = false -> String_endsWith s "//" = false.
Proof.
  intros H. apply not_true_is_false. intros [p E]%endsWith_spec.
  rewrite <- not_true_iff_false in H. apply H, endsWith_spec.
  exists (p +:+ "/"). now rewrite append_assoc.
Qed.

(** C1.  With a query component in the string form of the URL,
    [formatCanonicalURL] appends no slash: its result is the input, or the
    input without a final slash, and it is the input itself when that does
    not end with a slash.  On ["https://site.test/blog?page=2"] the result
    is the input, unchanged. *)
Theorem formatCanonicalURL_query_appends_no_slash :
  (forall url : StringOrURL,
      String_includes (toString url) "?" = true ->
      (exists t, toString url = formatCanonicalURL url +:+ t
                 /\ (t = "" \/ t = "/"))
      /\ (String_endsWith (toString url) "/" = false ->
          formatCanonicalURL url = toString url))
  /\ formatCanonicalURL (OfString "https://site.test/blog?page=2")
     = "https://site.test/blog?page=2".
Proof.
  split; [|reflexivity].
  intros url Hq. rewrite (formatCanonicalURL_query url Hq).
  destruct (trailing_slash_cases (toString url)) as [[p E] | E].
  - rewrite E, String_replace_trailing_slash, append_empty_r. split.
    + exists "/". now split; [|right].
    + intros H. now rewrite endsWith_append in H.
  - rewrite (String_replace_no_trailing_slash _ _ E), append_empty_r. split.
    + exists "". rewrite append_empty_r. now split; [|left].
    + reflexivity.
Qed.

Lemma formatCanonicalURL_query_appends_no_slash_witness :
  exists t, "https://site.test/blog/?page=2"
            = formatCanonicalURL (OfString "https://site.test/blog/?page=2") +:+ t
            /\ (t = "" \/ t = "/").
Proof.
  exact (proj1 (proj1 formatCanonicalURL_query_appends_no_slash
                  (OfString "https://site.test/blog/?page=2") eq_refl)).
Defined.

(** C9.  With a query component, a final slash of the string form of the
    URL is removed: the result is the input without that one character. *)
Theorem formatCanonicalURL_query_strips_final_slash
  (url : StringOrURL) (p : string) :
  String_includes (toString url) "?" = true ->
  toString url = p +:+ "/" ->
  formatCanonicalURL url = p.
Proof.
  intros Hq E. rewrite (formatCanonicalURL_query url Hq), E.
  now rewrite String_replace_trailing_slash, append_empty_r.
Qed.

Lemma formatCanonicalURL_query_strips_final_slash_witness :
  formatCanonicalURL (OfString "https://site.test/blog?page=2/")
  = "https://site.test/blog?page=2".
Proof.
  exact (formatCanonicalURL_query_strips_final_slash
           (OfString "https://site.test/blog?page=2/")
           "https://site.test/blog?page=2" eq_refl eq_refl).
Defined.

(** Without a query component the result ends with a slash and holds no
    query component either. *)
Lemma formatCanonicalURL_no_query_shape (url : StringOrURL) :
  String_includes (toString url) "?" = false ->
  String_endsWith (formatCanonicalURL url) "/" = true
  /\ String_includes (formatCanonicalURL url) "?" = false
  /\ (String_endsWith (toString url) "/" = true ->
      formatCanonicalURL url = toString url)
  /\ (String_endsWith (toString url) "/" = false ->
      formatCanonicalURL url = toString url +:+ "/").
Proof.
  intros Hq. rewrite (formatCanonicalURL_no_query url Hq).
  destruct (trailing_slash_cases (toString url)) as [[p E] | E].
  - rewrite E in *. rewrite String_replace_trailing_slash.
    repeat split; try assumption.
    + apply endsWith_append.
    + rewrite endsWith_append. discriminate.
  - rewrite (String_replace_no_trailing_slash _ _ E).
    repeat split.
    + apply endsWith_append.
    + now rewrite includes_char_append, Hq.
    + rewrite E. discriminate.
Qed.

(** C2, as the code has it.  Without a query component in the string form
    of the URL, [formatCanonicalURL] is idempotent and its result ends with
    a slash; the result ends with exactly one slash if and only if the
    input does not end with two.  ["https://site.test/blog"] maps to
    ["https://site.test/blog/"], which maps to itself. *)
Theorem formatCanonicalURL_no_query_idempotent :
  (forall url : StringOrURL,
      String_includes (toString url) "?" = false ->
      formatCanonicalURL (OfString (formatCanonicalURL url))
      = formatCanonicalURL url
      /\ String_endsWith (formatCanonicalURL url) "/" = true
      /\ ends_with_one_slash (formatCanonicalURL url)
         = negb (String_endsWith (toString url) "//"))
  /\ formatCanonicalURL (OfString "https://site.test/blog")
     = "https://site.test/blog/"
  /\ formatCanonicalURL (OfString "https://site.test/blog/")
     = "https://site.test/blog/".
Proof.
  split; [|split; reflexivity].
  intros url Hq.
  destruct (formatCanonicalURL_no_query_shape url Hq) as (Hs & Hq' & Hk & Ha).
  split; [|split].
  - destruct (formatCanonicalURL_no_query_shape
                (OfString (formatCanonicalURL url)) Hq') as (_ & _ & Hk' & _).
    now apply Hk'.
  - exact Hs.
  - unfold ends_with_one_slash. rewrite Hs, andb_true_l. f_equal.
    destruct (String_endsWith (toString url) "/") eqn:E.
    + now rewrite Hk.
    + rewrite Ha by reflexivity.
      now rewrite endsWith_two_slashes, E, endsWith_two_slashes_one.
Qed.

Lemma formatCanonicalURL_no_query_idempotent_witness :
  formatCanonicalURL (OfString (formatCanonicalURL (OfURL "https://coderik.nl/blog")))
  = formatCanonicalURL (OfURL "https://coderik.nl/blog").
Proof.
  exact (proj1 (proj1 formatCanonicalURL_no_query_idempotent
                  (OfURL "https://coderik.nl/blog") eq_refl)).
Defined.

(** C2, as stated, fails: a URL without a query component whose string
    form ends with two slashes is returned as it is, so the result does
    not end with exactly one slash. *)
Lemma formatCanonicalURL_two_trailing_slashes :
  String_includes (toString (OfString "https://site.test/blog//")) "?" = false
  /\ formatCanonicalURL (OfString "https://site.test/blog//")
     = "https://site.test/blog//"
  /\ ends_with_one_slash (formatCanonicalURL (OfString "https://site.test/blog//"))
     = false.
Proof. repeat split. Qed.

End CanonicalURL.

(** ** The resolved title *)

Section Title.
Import JS BaseHead.

Lemma Boolean_string_true (s : string) :
  s <> "" -> Boolean_string (Some s) = true.
Proof.
  intros H. unfold Boolean_string. apply negb_true_iff.
  now apply String.eqb_neq.
Qed.

(** The site title alone when there is no page title. *)
Lemma title_absent (props_title : option string) (site_title : string) :
  site_title <> "" ->
  props_title = None \/ props_title = Some "" ->
  title props_title site_title = site_title.
Proof.
  intros Hs [-> | ->]; unfold title; cbn -[Boolean_string];
    now rewrite (Boolean_string_true _ Hs).
Qed.

(** Page title, separator, site title otherwise. *)
Lemma title_present (page_title site_title : string) :
  site_title <> "" -> page_title <> "" ->
  title (Some page_title) site_title = page_title +:+ " | " +:+ site_title.
Proof.
  intros Hs Hp. unfold title; cbn -[Boolean_string].
  now rewrite (Boolean_string_true _ Hs), (Boolean_string_true _ Hp).
Qed.

Lemma startsWith_other_char (c : ascii) (s t : string) :
  String_startsWith (String c s) " " = false ->
  String_startsWith (String c s +:+ t) " | " = false.
Proof.
  rewrite startsWith_char, append_cons, startsWith_cons.
  now intros ->.
Qed.

Lemma endsWith_other_char (c : ascii) (s t : string) :
  String_endsWith (String c s) " " = false ->
  String_endsWith (t +:+ String c s) " | " = false.
Proof.
  intros H. apply not_true_is_false. intros [p E]%endsWith_spec.
  rewrite <- not_true_iff_false in H. apply H, endsWith_spec.
  destruct (string_snoc c s) as (s' & d & Es). rewrite Es in *.
  change " | " with (" |" +:+ " ") in E.
  rewrite <- !append_assoc in E.
  apply append_snoc_inj in E as [_ ->]. now exists s'.
Qed.

(** C6, as the code has it.  With a non-empty site title, the resolved
    title is the site title alone when the page title is absent or empty,
    and otherwise the page title, the separator and the site title; the
    join puts no separator at either end, so the resolved title neither
    starts nor ends with [" | "] whenever neither title starts with a space
    and the site title does not end with one. *)
Theorem title_separator_only_between
  (props_title : option string) (site_title : string) :
  site_title <> "" ->
  (props_title = None \/ props_title = Some "" ->
   title props_title site_title = site_title)
  /\ (forall page_title, props_title = Some page_title -> page_title <> "" ->
      title props_title site_title = page_title +:+ " | " +:+ site_title)
  /\ (String_startsWith (default "" props_title) " " = false ->
      String_startsWith site_title " " = false ->
      String_endsWith site_title " " = false ->
      String_startsWith (title props_title site_title) " | " = false
      /\ String_endsWith (title props_title site_title) " | " = false).
Proof.
  intros Hs. split; [|split].
  - now apply title_absent.
  - intros page_title -> Hp. now apply title_present.
  - intros Hp Hs1 Hs2.
    destruct site_title as [|c site]; [now destruct Hs|].
    destruct props_title as [[|a page]|].
    + rewrite title_absent by auto. split.
      * rewrite <- (append_empty_r (String c site)).
        now apply startsWith_other_char.
      * now apply (endsWith_other_char c site "").
    + rewrite title_present by (auto; discriminate). split.
      * now apply startsWith_other_char.
      * rewrite <- append_assoc. now apply endsWith_other_char.
    + rewrite title_absent by auto. split.
      * rewrite <- (append_empty_r (String c site)).
        now apply startsWith_other_char.
      * now apply (endsWith_other_char c site "").
Qed.

Lemma title_separator_only_between_witness :
  title (Some "Blog") "Coderik" = "Blog" +:+ " | " +:+ "Coderik"
  /\ String_startsWith (title (Some "Blog") "Coderik") " | " = false
  /\ String_endsWith (title (Some "Blog") "Coderik") " | " = false.
Proof.
  pose proof (title_separator_only_between (Some "Blog") "Coderik"
                ltac:(discriminate)) as (_ & Hp & Hn).
  split.
  - apply Hp; [reflexivity | discriminate].
  - apply Hn; reflexivity.
Defined.

(** C6, as stated, fails: a page title that itself starts with the
    separator gives a resolved title that starts with it. *)
Lemma title_starts_with_separator :
  SiteConfig.title SiteConfig.siteConfig <> ""
  /\ title (Some " | a") (SiteConfig.title SiteConfig.siteConfig)
     = " | a | Coderik"
  /\ String_startsWith
       (title (Some " | a") (SiteConfig.title SiteConfig.siteConfig)) " | "
     = true.
Proof. repeat split. discriminate. Qed.

End Title.

(** ** The metadata resolver as a whole *)

Section Resolver.
Import JS SiteConfig BaseHead.

Variable URL_new : string -> string -> completion string.

(** The image is resolved through the URL constructor exactly when it has
    a non-empty [src]. *)
Lemma resolvedImage_cases (image : option Image) (base : string) :
  match image with
  | Some img =>
      if String.eqb (src img) ""
      then resolvedImage URL_new image base = Normal None
      else match URL_new (src img) base with
           | Normal href =>
               resolvedImage URL_new image base
               = Normal (Some {| src := href; alt := alt img |})
           | Throw e => resolvedImage URL_new image base = Throw e
           end
  | None => resolvedImage URL_new image base = Normal None
  end.
Proof.
  destruct image as [img|]; [|reflexivity].
  unfold resolvedImage, Boolean_string.
  destruct (String.eqb (src img) ""); [reflexivity|]. cbn [negb].
  now destruct (URL_new (src img) base).
Qed.

Lemma frontmatter_bind (cfg : Config) (astro : Astro) :
  frontmatter URL_new cfg astro
  = (resolved ← resolvedImage URL_new (image_or_default cfg (props astro))
                              (site astro);
     canonicalURL ← URL_new (request_url astro) (site astro);
     mret {| h_title := title (p_title (props astro)) (SiteConfig.title cfg);
             h_description := default "" (p_description (props astro));
             h_pageType := default website (p_pageType (props astro));
             h_resolvedImage := resolved;
             h_canonical := formatCanonicalURL (OfURL canonicalURL) |}).
Proof. reflexivity. Qed.

End Resolver.

(** C8, as the code has it.  The title and the formatting of the canonical
    URL are total, and the resolver is a function of its inputs and of what
    the URL constructor returns.  It completes normally exactly when the
    constructor does, on the image's [src] (consulted only when that is not
    empty) and on the request URL, and then yields the composed title, the
    defaults of the absent properties, the resolved image and the formatted
    canonical URL; it throws exactly what the constructor throws. *)
Theorem frontmatter_fails_only_in_URL
  (URL_new : string -> string -> JS.completion string)
  (cfg : SiteConfig.Config) (astro : BaseHead.Astro) :
  match BaseHead.frontmatter URL_new cfg astro with
  | JS.Normal h =>
      BaseHead.h_title h
      = BaseHead.title (BaseHead.p_title (BaseHead.props astro)) (SiteConfig.title cfg)
      /\ BaseHead.h_description h
         = default "" (BaseHead.p_description (BaseHead.props astro))
      /\ BaseHead.h_pageType h
         = default BaseHead.website (BaseHead.p_pageType (BaseHead.props astro))
      /\ BaseHead.resolvedImage URL_new
           (BaseHead.image_or_default cfg (BaseHead.props astro)) (BaseHead.site astro)
         = JS.Normal (BaseHead.h_resolvedImage h)
      /\ exists canonicalURL,
          URL_new (BaseHead.request_url astro) (BaseHead.site astro)
          = JS.Normal canonicalURL
          /\ BaseHead.h_canonical h
             = BaseHead.formatCanonicalURL (BaseHead.OfURL canonicalURL)
  | JS.Throw e =>
      (exists img,
          BaseHead.image_or_default cfg (BaseHead.props astro) = Some img
          /\ SiteConfig.src img <> ""
          /\ URL_new (SiteConfig.src img) (BaseHead.site astro) = JS.Throw e)
      \/ URL_new (BaseHead.request_url astro) (BaseHead.site astro) = JS.Throw e
  end.
Proof.
  rewrite frontmatter_bind.
  pose proof (resolvedImage_cases URL_new
                (BaseHead.image_or_default cfg (BaseHead.props astro))
                (BaseHead.site astro)) as Himg.
  destruct (BaseHead.resolvedImage URL_new _ _) as [resolved|e] eqn:Er.
  - cbn [mbind JS.completion_bind].
    destruct (URL_new (BaseHead.request_url astro) (BaseHead.site astro))
      as [canonicalURL|e] eqn:Ec.
    + cbn. repeat split. now exists canonicalURL.
    + cbn. now right.
  - cbn [mbind JS.completion_bind]. left.
    destruct (BaseHead.image_or_default cfg (BaseHead.props astro)) as [img|];
      [|discriminate Himg].
    exists img. split; [reflexivity|].
    destruct (String.eqb_spec (SiteConfig.src img) "") as [_|Hne];
      [discriminate Himg|].
    split; [exact Hne|].
    destruct (URL_new (SiteConfig.src img) (BaseHead.site astro));
      congruence.
Qed.

(** C8, as stated, fails: an image whose [src] is ["//"] names no host, the
    URL constructor rejects it against the site's base URL, and the resolver
    throws. *)
Lemma frontmatter_throws_on_missing_host :
  let astro :=
    {| BaseHead.props :=
         {| BaseHead.p_title := Some "Blog";
            BaseHead.p_description := None;
            BaseHead.p_image := Some {| SiteConfig.src := "//"; SiteConfig.alt := None |};
            BaseHead.p_pageType := None |};
       BaseHead.request_url := "https://coderik.nl/blog";
       BaseHead.site := "https://coderik.nl/" |} in
  URLStandard.host_missing "//" (BaseHead.site astro) = true
  /\ (forall URL_new, URLStandard.conforms URL_new ->
      BaseHead.frontmatter URL_new SiteConfig.siteConfig astro
      = JS.Throw JS.TypeError)
  /\ exists URL_new, URLStandard.conforms URL_new.
Proof.
  cbv zeta. split; [reflexivity|]. split.
  - intros URL_new H. rewrite frontmatter_bind.
    unfold BaseHead.resolvedImage. cbn.
    now rewrite (H "//" "https://coderik.nl/" eq_refl).
  - exists (fun input base =>
              if URLStandard.host_missing input base
              then JS.Throw JS.TypeError else JS.Normal input).
    intros input base H. now rewrite H.
Qed.

(** ** The header's class list *)

Section ClassList.
Import Header.

Lemma classList_contains_add (token other : string) (classes : list string) :
  classList_contains token (classList_add other classes)
  = String.eqb token other || classList_contains token classes.
Proof.
  unfold classList_add.
  destruct (classList_contains other classes) eqn:E.
  - destruct (String.eqb_spec token other) as [->|_]; [now rewrite E | reflexivity].
  - unfold classList_contains. rewrite existsb_app. simpl.
    rewrite orb_false_r. apply orb_comm.
Qed.

Lemma classList_contains_remove (token other : string) (classes : list string) :
  classList_contains token (classList_remove other classes)
  = negb (String.eqb token other) && classList_contains token classes.
Proof.
  unfold classList_contains, classList_remove.
  induction classes as [|c classes IH]; simpl.
  - now rewrite andb_false_r.
  - destruct (String.eqb_spec other c) as [->|Hoc]; simpl; rewrite IH.
    + destruct (String.eqb_spec token c); simpl; [reflexivity|].
      reflexivity.
    + destruct (String.eqb_spec token c) as [->|_]; simpl.
      * destruct (String.eqb_spec c other) as [->|_]; [now destruct Hoc | reflexivity].
      * reflexivity.
Qed.

Lemma classList_contains_header_class (token : string) (scroll : Z) :
  classList_contains token (header_class scroll)
  = classList_contains token header_static_class
    || header_class_binding scroll && String.eqb token "header-bg-color".
Proof.
  unfold header_class, classList_contains. rewrite existsb_app.
  destruct (header_class_binding scroll); simpl; now rewrite ?orb_false_r.
Qed.

Lemma header_class_equal (prev next : Z) :
  header_class prev = header_class next
  <-> header_class_binding prev = header_class_binding next.
Proof.
  unfold header_class. split.
  - intros H%app_inv_head.
    now destruct (header_class_binding prev), (header_class_binding next).
  - now intros ->.
Qed.

End ClassList.

(** ** The scroll listener *)

Section ScrollListener.
Import Header.
Local Open Scope Z_scope.

Lemma scroll_listener_top (s : Z) (st : State) :
  s < 150 ->
  scroll_listener s st = set_classList (classList_remove "header-hide") st.
Proof. intros H. unfold scroll_listener. now rewrite (proj2 (Z.ltb_lt _ _) H). Qed.

Lemma scroll_listener_down (s : Z) (st : State) :
  150 <= s -> s - oldScroll st > 150 ->
  scroll_listener s st
  = set_oldScroll s (set_classList (classList_add "header-hide") st).
Proof.
  intros H1 H2. unfold scroll_listener.
  rewrite (proj2 (Z.ltb_ge _ _) H1).
  rewrite (proj2 (Z.gtb_gt _ _) H2). cbn [oldScroll set_oldScroll].
  replace (s - s >? 150) with false by (symmetry; rewrite Z.gtb_ltb; apply Z.ltb_ge; lia).
  reflexivity.
Qed.

Lemma scroll_listener_up (s : Z) (st : State) :
  150 <= s -> oldScroll st - s > 150 ->
  scroll_listener s st
  = set_oldScroll s (set_classList (classList_remove "header-hide") st).
Proof.
  intros H1 H2. unfold scroll_listener.
  rewrite (proj2 (Z.ltb_ge _ _) H1).
  replace (s - oldScroll st >? 150) with false
    by (symmetry; rewrite Z.gtb_ltb; apply Z.ltb_ge; lia).
  now rewrite (proj2 (Z.gtb_gt _ _) H2).
Qed.

Lemma scroll_listener_still (s : Z) (st : State) :
  150 <= s -> s - oldScroll st <= 150 -> oldScroll st - s <= 150 ->
  scroll_listener s st = st.
Proof.
  intros H1 H2 H3. unfold scroll_listener.
  rewrite (proj2 (Z.ltb_ge _ _) H1).
  replace (s - oldScroll st >? 150) with false
    by (symmetry; rewrite Z.gtb_ltb; apply Z.ltb_ge; lia).
  replace (oldScroll st - s >? 150) with false
    by (symmetry; rewrite Z.gtb_ltb; apply Z.ltb_ge; lia).
  reflexivity.
Qed.

Lemma hidden_add (st : State) :
  hidden (set_classList (classList_add "header-hide") st) = true.
Proof. unfold hidden. cbn [classList set_classList]. now rewrite classList_contains_add. Qed.

Lemma hidden_remove (st : State) :
  hidden (set_classList (classList_remove "header-hide") st) = false.
Proof. unfold hidden. cbn [classList set_classList]. now rewrite classList_contains_remove. Qed.

(** C3.  The scroll listener as a step on the recorded offset and the
    hidden flag: below 150 the header is shown and the recorded offset
    kept; from 150 on, a move of more than 150 down hides the header and
    a move of more than 150 up shows it, each recording the offset; any
    other event changes nothing.  From a recorded offset of 0 the events
    200, 400, 100 leave the header hidden, hidden, and then shown. *)
Theorem scroll_listener_step (s : Z) (st : State) :
  (s < 150 ->
   hidden (scroll_listener s st) = false
   /\ oldScroll (scroll_listener s st) = oldScroll st)
  /\ (150 <= s -> s - oldScroll st > 150 ->
      hidden (scroll_listener s st) = true
      /\ oldScroll (scroll_listener s st) = s)
  /\ (150 <= s -> oldScroll st - s > 150 ->
      hidden (scroll_listener s st) = false
      /\ oldScroll (scroll_listener s st) = s)
  /\ (150 <= s -> s - oldScroll st <= 150 -> oldScroll st - s <= 150 ->
      scroll_listener s st = st)
  /\ (oldScroll st = 0 ->
      hidden (scroll_events [200] st) = true
      /\ hidden (scroll_events [200; 400] st) = true
      /\ hidden (scroll_events [200; 400; 100] st) = false).
Proof.
  repeat apply conj.
  - intros H. rewrite (scroll_listener_top s st H).
    split; [apply hidden_remove | reflexivity].
  - intros H1 H2. rewrite (scroll_listener_down s st H1 H2).
    split; [apply hidden_add | reflexivity].
  - intros H1 H2. rewrite (scroll_listener_up s st H1 H2).
    split; [apply hidden_remove | reflexivity].
  - apply scroll_listener_still.
  - intros H0. unfold scroll_events. cbn [fold_left].
    rewrite (scroll_listener_down 200 st) by lia.
    split; [apply hidden_add|].
    rewrite scroll_listener_down by (cbn [oldScroll set_oldScroll]; lia).
    split; [apply hidden_add|].
    rewrite (scroll_listener_top 100) by lia. apply hidden_remove.
Qed.

Lemma scroll_listener_step_witness :
  (hidden (scroll_listener 100 (mount 400 400)) = false
   /\ oldScroll (scroll_listener 100 (mount 400 400)) = 400)
  /\ (hidden (scroll_listener 200 (mount 0 0)) = true
      /\ oldScroll (scroll_listener 200 (mount 0 0)) = 200)
  /\ (hidden (scroll_listener 200 (mount 400 400)) = false
      /\ oldScroll (scroll_listener 200 (mount 400 400)) = 200)
  /\ scroll_listener 300 (mount 400 400) = mount 400 400
  /\ (hidden (scroll_events [200] (mount 0 0)) = true
      /\ hidden (scroll_events [200; 400] (mount 0 0)) = true
      /\ hidden (scroll_events [200; 400; 100] (mount 0 0)) = false).
Proof.
  repeat apply conj.
  - apply (proj1 (scroll_listener_step 100 (mount 400 400))). reflexivity.
  - apply (proj1 (scroll_listener_step 100 (mount 400 400))). reflexivity.
  - apply (proj1 (proj2 (scroll_listener_step 200 (mount 0 0)))); cbn; lia.
  - apply (proj1 (proj2 (scroll_listener_step 200 (mount 0 0)))); cbn; lia.
  - apply (proj1 (proj2 (proj2 (scroll_listener_step 200 (mount 400 400)))));
      cbn; lia.
  - apply (proj1 (proj2 (proj2 (scroll_listener_step 200 (mount 400 400)))));
      cbn; lia.
  - apply (proj1 (proj2 (proj2 (proj2 (scroll_listener_step 300 (mount 400 400))))));
      cbn; lia.
  - apply (proj2 (proj2 (proj2 (proj2 (scroll_listener_step 0 (mount 0 0)))))).
    reflexivity.
  - apply (proj2 (proj2 (proj2 (proj2 (scroll_listener_step 0 (mount 0 0)))))).
    reflexivity.
  - apply (proj2 (proj2 (proj2 (proj2 (scroll_listener_step 0 (mount 0 0)))))).
    reflexivity.
Defined.

End ScrollListener.

(** ** The solid background of the header *)

Section Background.
Import Header.
Local Open Scope Z_scope.

Lemma backgroundSolid_header_class (scroll : Z) (st : State) :
  classList st = header_class scroll ->
  backgroundSolid st = header_class_binding scroll.
Proof.
  intros E. unfold backgroundSolid.
  rewrite E, classList_contains_header_class.
  now destruct (header_class_binding scroll).
Qed.

(** The mount check adds the class exactly above 100. *)
Lemma backgroundSolid_onMounted (scrollTop : Z) (st : State) :
  backgroundSolid (fst (onMounted true scrollTop st))
  = (100 <? scrollTop) || backgroundSolid st.
Proof.
  unfold onMounted. cbn [negb fst]. rewrite Z.gtb_ltb.
  destruct (100 <? scrollTop); [|reflexivity].
  unfold backgroundSolid. cbn [classList set_classList].
  now rewrite classList_contains_add.
Qed.

(** A render re-evaluates the class binding. *)
Lemma backgroundSolid_render (s : Z) (st : State) :
  backgroundSolid (render s st)
  = if Bool.eqb (header_class_binding (rendered_scroll st)) (header_class_binding s)
    then backgroundSolid st
    else header_class_binding s.
Proof.
  unfold render.
  destruct (Bool.eqb_spec (header_class_binding (rendered_scroll st))
              (header_class_binding s)) as [E|E].
  - rewrite bool_decide_eq_true_2 by now apply header_class_equal.
    reflexivity.
  - rewrite bool_decide_eq_false_2 by now rewrite header_class_equal.
    now apply backgroundSolid_header_class.
Qed.

(** The scroll listener leaves the background as it is. *)
Lemma backgroundSolid_scroll_listener (s : Z) (st : State) :
  backgroundSolid (scroll_listener s st) = backgroundSolid st.
Proof.
  unfold scroll_listener, backgroundSolid.
  repeat match goal with
         | |- context [if ?b then _ else _] => destruct b
         end;
    cbn [classList set_classList set_oldScroll];
    now rewrite ?classList_contains_remove, ?classList_contains_add.
Qed.

(** C4, as the code has it.  The check in the mount hook runs once and
    adds the solid background exactly when the offset it reads exceeds 100
    (150 adds it, 0 does not).  The background is also bound by the
    template to [scroll > 20] and is evaluated again at every render:
    after mounting the header is solid if and only if the check or the
    binding says so, a render that changes the value of the binding makes
    the header solid if and only if the offset exceeds 20, a render that
    does not change it and the scroll listener leave the background as it
    is. *)
Theorem backgroundSolid_mount_and_render :
  (forall scrollTop st,
      backgroundSolid (fst (onMounted true scrollTop st))
      = (100 <? scrollTop) || backgroundSolid st)
  /\ (forall scroll0 scrollTop,
      backgroundSolid (mount scroll0 scrollTop)
      = (100 <? scrollTop) || (20 <? scroll0))
  /\ (forall s st,
      backgroundSolid (render s st)
      = if Bool.eqb (20 <? rendered_scroll st) (20 <? s)
        then backgroundSolid st
        else 20 <? s)
  /\ (forall s st, backgroundSolid (scroll_listener s st) = backgroundSolid st)
  /\ backgroundSolid (mount 150 150) = true
  /\ backgroundSolid (mount 0 150) = true
  /\ backgroundSolid (mount 0 0) = false.
Proof.
  split; [exact backgroundSolid_onMounted|].
  split.
  { intros scroll0 scrollTop. unfold mount.
    rewrite backgroundSolid_onMounted. f_equal.
    now apply backgroundSolid_header_class. }
  split; [exact backgroundSolid_render|].
  split; [exact backgroundSolid_scroll_listener|].
  repeat split.
Qed.

(** C4, as stated, fails: mounted at offset 0 the header is not solid,
    and the render that follows a scroll to offset 50 makes it solid,
    although the initial offset does not exceed 100. *)
Lemma backgroundSolid_after_scroll :
  backgroundSolid (mount 0 0) = false
  /\ (100 <? 0) = false
  /\ backgroundSolid (render 50 (mount 0 0)) = true
  /\ backgroundSolid (scroll_listener 50 (render 50 (mount 0 0))) = true.
Proof. repeat split. Qed.

End Background.

(** ** The header's social links and the configuration *)

Section SocialLinks.
Import JS SiteConfig Header.

(** The callback keeps an entry exactly when its [header] is truthy. *)
Lemma socialLinks_callback_keeps (link : SocialLink) :
  (socialLinks_callback link).2 = truthy (sl_header link).
Proof.
  unfold socialLinks_callback.
  destruct (sl_header link) as [|[]|h]; try reflexivity.
  cbn [typeof is_type andb]. rewrite andb_false_r, andb_true_r.
  now destruct (truthy (HeaderString h)).
Qed.

Lemma includes_empty (search : string) :
  search <> "" -> String_includes "" search = false.
Proof. destruct search; [now intros [] | reflexivity]. Qed.

Lemma socialLinks_callback_entry (link : SocialLink) :
  (socialLinks_callback link).1
  = {| sl_text := sl_text link; sl_href := sl_href link;
       sl_icon := icon_after link; sl_header := sl_header link |}.
Proof.
  unfold socialLinks_callback, icon_after.
  destruct link as [text href icon [|[]|h]]; try reflexivity.
  cbn [sl_header sl_text sl_href sl_icon typeof is_type andb].
  rewrite andb_false_r, andb_true_r.
  destruct (truthy (HeaderString h)) eqn:E; [reflexivity|].
  cbn [fst truthy] in *. f_equal.
  apply negb_false_iff, String.eqb_eq in E. subst h. reflexivity.
Qed.

Lemma Array_filter_store (callback : SocialLink -> SocialLink * bool)
      (index : nat) (links : list SocialLink) :
  (Array_filter callback index links).1 = (fun link => (callback link).1) <$> links.
Proof.
  revert index; induction links as [|link rest IH]; intros index; [reflexivity|].
  cbn [Array_filter]. rewrite fmap_cons. specialize (IH (S index)).
  destruct (callback link) as [link' keep].
  destruct (Array_filter callback (S index) rest) as [rest' kept].
  cbn [fst] in *. now f_equal.
Qed.

Lemma Array_filter_kept (callback : SocialLink -> SocialLink * bool)
      (index : nat) (links : list SocialLink) (j : nat) :
  j ∈ (Array_filter callback index links).2
  <-> exists link, (index <= j)%nat
                   /\ links !! (j - index)%nat = Some link
                   /\ (callback link).2 = true.
Proof.
  revert index; induction links as [|link rest IH]; intros index.
  - cbn. split; [intros H; inversion H | intros (link & _ & H & _); discriminate].
  - cbn [Array_filter]. specialize (IH (S index)).
    destruct (callback link) as [link' keep] eqn:Ec.
    destruct (Array_filter callback (S index) rest) as [rest' kept].
    cbn [snd] in *.
    assert (j ∈ (if keep then index :: kept else kept)
            <-> (keep = true /\ j = index) \/ j ∈ kept) as ->.
    { destruct keep; [rewrite elem_of_cons|]; intuition congruence. }
    rewrite IH. split.
    + intros [[-> ->] | (l & Hle & Hl & Hk)].
      * exists link. rewrite Nat.sub_diag, Ec. auto.
      * exists l. split; [lia|]. split; [|exact Hk].
        replace (j - index)%nat with (S (j - S index)) by lia. exact Hl.
    + intros (l & Hle & Hl & Hk).
      destruct (decide (j = index)) as [->|Hne].
      * left. rewrite Nat.sub_diag in Hl. cbn in Hl.
        injection Hl as <-. rewrite Ec in Hk. auto.
      * right. exists l. split; [lia|]. split; [|exact Hk].
        replace (j - index)%nat with (S (j - S index)) in Hl by lia. exact Hl.
Qed.

Lemma socialLinks_store (cfg : Config) :
  SiteConfig.socialLinks (Header.socialLinks cfg).1
  = (fun link => (socialLinks_callback link).1) <$> SiteConfig.socialLinks cfg.
Proof.
  unfold Header.socialLinks.
  rewrite <- (Array_filter_store socialLinks_callback 0).
  now destruct (Array_filter socialLinks_callback 0 (SiteConfig.socialLinks cfg)).
Qed.

Lemma socialLinks_kept (cfg : Config) (i : nat) :
  i ∈ (Header.socialLinks cfg).2
  <-> exists link, SiteConfig.socialLinks cfg !! i = Some link
                   /\ truthy (sl_header link) = true.
Proof.
  unfold Header.socialLinks.
  pose proof (Array_filter_kept socialLinks_callback 0
                (SiteConfig.socialLinks cfg) i) as H.
  destruct (Array_filter socialLinks_callback 0 (SiteConfig.socialLinks cfg)).
  cbn [snd] in *. rewrite H, Nat.sub_0_r.
  split; intros (link & H1); exists link.
  - destruct H1 as (_ & Hl & Hk). now rewrite <- socialLinks_callback_keeps.
  - destruct H1 as (Hl & Hk). rewrite socialLinks_callback_keeps.
    repeat split; [lia | assumption | assumption].
Qed.

Lemma truthy_cases (h : HeaderFlag) :
  truthy h = true
  <-> h = HeaderBool true \/ exists s, h = HeaderString s /\ s <> "".
Proof.
  destruct h as [|b|s]; cbn.
  - split; [discriminate | intros [H | (s & H & _)]; discriminate].
  - split.
    + intros ->. now left.
    + intros [H | (s & H & _)]; [now injection H | discriminate].
  - rewrite negb_true_iff, String.eqb_neq. split.
    + intros H. right. now exists s.
    + intros [H | (s' & H & Hne)]; [discriminate | now injection H as ->].
Qed.

(** C10.  An entry of the social links is in the header's list if and
    only if its [header] is truthy, that is [true] or a non-empty string;
    computing the list overwrites the [icon] of an entry whose [header] is
    a string containing ["i-"] with that string; an entry without
    [header], or with [false] or the empty string, is left out. *)
Theorem socialLinks_by_header_flag
  (cfg : Config) (i : nat) (link : SocialLink) :
  SiteConfig.socialLinks cfg !! i = Some link ->
  (i ∈ (Header.socialLinks cfg).2 <-> truthy (sl_header link) = true)
  /\ (truthy (sl_header link) = true
      <-> sl_header link = HeaderBool true
          \/ exists s, sl_header link = HeaderString s /\ s <> "")
  /\ (forall h, sl_header link = HeaderString h ->
                String_includes h "i-" = true ->
                sl_icon <$> SiteConfig.socialLinks (Header.socialLinks cfg).1 !! i
                = Some (Some h))
  /\ (sl_header link = HeaderAbsent
      \/ sl_header link = HeaderBool false
      \/ sl_header link = HeaderString "" ->
      i ∉ (Header.socialLinks cfg).2).
Proof.
  intros Hl.
  assert (i ∈ (Header.socialLinks cfg).2 <-> truthy (sl_header link) = true) as Hk.
  { rewrite socialLinks_kept. split.
    - intros (link' & Hl' & Ht). congruence.
    - intros Ht. now exists link. }
  split; [exact Hk|]. split; [apply truthy_cases|]. split.
  - intros h Hh Hi. rewrite socialLinks_store, list_lookup_fmap, Hl. cbn.
    rewrite socialLinks_callback_entry. cbn. unfold icon_after.
    now rewrite Hh, Hi.
  - intros H. rewrite Hk. destruct H as [-> | [-> | ->]]; discriminate.
Qed.

Lemma socialLinks_by_header_flag_witness :
  (0%nat ∈ (Header.socialLinks siteConfig).2)
  /\ sl_icon <$> SiteConfig.socialLinks (Header.socialLinks siteConfig).1 !! 0%nat
     = Some (Some "i-ri-github-line")
  /\ 1%nat ∉ (Header.socialLinks siteConfig).2.
Proof.
  split; [|split].
  - apply (socialLinks_by_header_flag siteConfig 0 _ eq_refl). reflexivity.
  - apply (socialLinks_by_header_flag siteConfig 0 _ eq_refl); reflexivity.
  - apply (socialLinks_by_header_flag siteConfig 1 _ eq_refl). now left.
Defined.

(** C5, as the code has it.  Computing the header's social links leaves
    the title, the image and the navigation links of the configuration as
    they are, keeps every social link in its place with its [text], [href]
    and [header], and writes to nothing but the [icon] of the entries
    whose [header] is a string containing ["i-"], which becomes that
    string. *)
Theorem socialLinks_writes_icon_only (cfg : Config) :
  SiteConfig.title (Header.socialLinks cfg).1 = SiteConfig.title cfg
  /\ SiteConfig.image (Header.socialLinks cfg).1 = SiteConfig.image cfg
  /\ navLinks (Header.socialLinks cfg).1 = navLinks cfg
  /\ length (SiteConfig.socialLinks (Header.socialLinks cfg).1)
     = length (SiteConfig.socialLinks cfg)
  /\ forall i link,
      SiteConfig.socialLinks cfg !! i = Some link ->
      exists link',
        SiteConfig.socialLinks (Header.socialLinks cfg).1 !! i = Some link'
        /\ sl_text link' = sl_text link
        /\ sl_href link' = sl_href link
        /\ sl_header link' = sl_header link
        /\ sl_icon link'
           = match sl_header link with
             | HeaderString h =>
                 if String_includes h "i-" then Some h else sl_icon link
             | _ => sl_icon link
             end.
Proof.
  assert (forall cfg', (Header.socialLinks cfg').1
                       = {| SiteConfig.title := SiteConfig.title cfg';
                            SiteConfig.image := SiteConfig.image cfg';
                            SiteConfig.socialLinks :=
                              SiteConfig.socialLinks (Header.socialLinks cfg').1;
                            SiteConfig.header_navLinks := header_navLinks cfg' |}) as E.
  { intros cfg'. unfold Header.socialLinks.
    now destruct (Array_filter _ _ _). }
  repeat apply conj; try (rewrite E; reflexivity).
  - now rewrite socialLinks_store, length_fmap.
  - intros i link Hl. exists (socialLinks_callback link).1.
    rewrite socialLinks_store, list_lookup_fmap, Hl.
    split; [reflexivity|]. now rewrite socialLinks_callback_entry.
Qed.

Lemma socialLinks_writes_icon_only_witness :
  exists link',
    SiteConfig.socialLinks (Header.socialLinks siteConfig).1 !! 1%nat = Some link'
    /\ sl_text link' = "Linkedin"
    /\ sl_href link' = ""
    /\ sl_header link' = HeaderAbsent
    /\ sl_icon link' = Some "i-simple-icons-linkedin".
Proof.
  exact (proj2 (proj2 (proj2 (proj2 (socialLinks_writes_icon_only siteConfig))))
           1%nat _ eq_refl).
Defined.

(** C5, as stated, fails: computing the header's social links changes the
    [icon] of the GitHub entry of the configuration. *)
Lemma socialLinks_overwrites_github_icon :
  sl_icon <$> SiteConfig.socialLinks siteConfig !! 0%nat
  = Some (Some "i-simple-icons-github")
  /\ sl_icon <$> SiteConfig.socialLinks (Header.socialLinks siteConfig).1 !! 0%nat
     = Some (Some "i-ri-github-line")
  /\ (Header.socialLinks siteConfig).1 <> siteConfig.
Proof. repeat split. discriminate. Qed.

End SocialLinks.

(** ** The navigation drawer *)

Section NavDrawer.
Import Header.

(** A toggle needs both elements. *)
Lemma toggleNavDrawer_missing (doc : Document) :
  nav_drawer doc = None \/ nav_drawer_mask doc = None ->
  toggleNavDrawer doc = doc.
Proof.
  unfold toggleNavDrawer. intros [-> | ->]; [reflexivity|].
  now destruct (nav_drawer doc).
Qed.

(** Every document a toggle is called on is freshly rendered, open or
    closed. *)
Lemma reachable_cases (doc : Document) :
  reachable doc ->
  rendered doc \/ doc = document_open \/ doc = document_closed.
Proof.
  induction 1 as [doc H | doc _ [[Hd Hm] | [-> | ->]]].
  - now left.
  - destruct Hd as [Hd | Hd], Hm as [Hm | Hm].
    + right; left. unfold toggleNavDrawer. now rewrite Hd, Hm.
    + left. rewrite toggleNavDrawer_missing by auto. split; auto.
    + left. rewrite toggleNavDrawer_missing by auto. split; auto.
    + left. rewrite toggleNavDrawer_missing by auto. split; auto.
  - right; right. reflexivity.
  - right; left. reflexivity.
Qed.

(** C7.  On every document the toggle can be called on (freshly rendered
    without inline styles, open or closed) two toggles leave the drawer and
    its mask on screen as they were; once a toggle has written the inline
    styles, two toggles restore them literally.  From the rendered document,
    which shows the drawer closed, one toggle opens it and the second closes
    it again. *)
Theorem toggleNavDrawer_twice (doc : Document) :
  reachable doc ->
  shown (toggleNavDrawer (toggleNavDrawer doc)) = shown doc
  /\ (rendered doc \/ toggleNavDrawer (toggleNavDrawer doc) = doc)
  /\ shown initial_document = closed
  /\ shown (toggleNavDrawer initial_document) = open
  /\ shown (toggleNavDrawer (toggleNavDrawer initial_document)) = closed.
Proof.
  intros H. split; [|split; [|repeat split]].
  - destruct (reachable_cases doc H) as [[Hd Hm] | [-> | ->]];
      [|reflexivity|reflexivity].
    destruct Hd as [Hd | Hd], Hm as [Hm | Hm].
    + destruct doc as [d m]. cbn in Hd, Hm. now subst.
    + now rewrite !(toggleNavDrawer_missing doc) by auto.
    + now rewrite !(toggleNavDrawer_missing doc) by auto.
    + now rewrite !(toggleNavDrawer_missing doc) by auto.
  - destruct (reachable_cases doc H) as [Hr | [-> | ->]];
      [now left | now right | now right].
Qed.

Lemma toggleNavDrawer_twice_witness :
  shown (toggleNavDrawer (toggleNavDrawer (toggleNavDrawer initial_document)))
  = shown (toggleNavDrawer initial_document).
Proof.
  exact (proj1 (toggleNavDrawer_twice (toggleNavDrawer initial_document)
                  (reachable_toggle _
                     (reachable_rendered initial_document
                        (conj (or_introl eq_refl) (or_introl eq_refl)))))).
Defined.

End NavDrawer.

(** * Further properties *)

(** ** The canonical URL, on every input *)

Section CanonicalURLMore.
Import JS BaseHead.

Lemma length_append (s t : string) :
  String.length (s +:+ t) = (String.length s + String.length t)%nat.
Proof.
  induction s as [|c s IH]; [reflexivity|].
  rewrite append_cons. cbn [String.length]. now rewrite IH.
Qed.

Lemma append_slash_neq (s : string) : s +:+ "/" <> s.
Proof.
  intros E. apply (f_equal String.length) in E.
  rewrite length_append in E. cbn in E. lia.
Qed.

(** The result in full: the string form without its final slash, if it has
    one, followed by nothing when there is a query component and by a slash
    when there is none. *)
Lemma formatCanonicalURL_cases (url : StringOrURL) :
  let ending := if String_includes (toString url) "?" then "" else "/" in
  (exists p, toString url = p +:+ "/" /\ formatCanonicalURL url = p +:+ ending)
  \/ (String_endsWith (toString url) "/" = false
      /\ formatCanonicalURL url = toString url +:+ ending).
Proof.
  cbv zeta.
  assert (formatCanonicalURL url
          = String_replace re_optional_slash_at_end (toString url)
              (if String_includes (toString url) "?" then "" else "/")) as ->
      by reflexivity.
  destruct (trailing_slash_cases (toString url)) as [[p E] | E].
  - left. exists p. split; [exact E|].
    now rewrite E at 1; rewrite String_replace_trailing_slash.
  - right. split; [exact E|]. now apply String_replace_no_trailing_slash.
Qed.

Lemma formatCanonicalURL_not_empty (url : StringOrURL) :
  formatCanonicalURL url <> "".
Proof.
  destruct (formatCanonicalURL_cases url) as [(p & E & ->) | (E & ->)];
    destruct (String_includes (toString url) "?") eqn:Hq.
  - rewrite append_empty_r. intros ->. rewrite E in Hq. discriminate Hq.
  - apply append_snoc_not_empty.
  - rewrite append_empty_r. intros E'. rewrite E' in Hq. discriminate Hq.
  - apply append_snoc_not_empty.
Qed.

(** X1.  [formatCanonicalURL] neither adds nor removes the query component:
    its result contains ['?'] exactly when the string form of the URL
    does. *)
Theorem formatCanonicalURL_keeps_query (url : StringOrURL) :
  String_includes (formatCanonicalURL url) "?"
  = String_includes (toString url) "?".
Proof.
  destruct (formatCanonicalURL_cases url) as [(p & E & ->) | (E & ->)].
  - rewrite E, !includes_char_append.
    destruct (String_includes p "?"); [reflexivity|].
    now rewrite !orb_false_l.
  - rewrite includes_char_append.
    destruct (String_includes (toString url) "?"); [reflexivity|].
    now rewrite orb_false_l.
Qed.

(** X2.  With a query component, the result of [formatCanonicalURL] still
    ends with a slash exactly when the input ended with two, and formatting
    the result again gives the same string exactly when it did not: only
    one slash is removed per call. *)
Theorem formatCanonicalURL_query_one_slash_per_call (url : StringOrURL) :
  String_includes (toString url) "?" = true ->
  String_endsWith (formatCanonicalURL url) "/"
  = String_endsWith (toString url) "//"
  /\ (formatCanonicalURL (OfString (formatCanonicalURL url))
      = formatCanonicalURL url
      <-> String_endsWith (toString url) "//" = false).
Proof.
  intros Hq.
  destruct (formatCanonicalURL_cases url) as [(p & E & Ef) | (E & Ef)];
    rewrite Hq, append_empty_r in Ef; rewrite Ef.
  - rewrite E, endsWith_two_slashes.
    split; [reflexivity|].
    assert (String_includes p "?" = true) as Hp.
    { rewrite E, includes_char_append in Hq. now rewrite orb_false_r in Hq. }
    destruct (formatCanonicalURL_cases (OfString p)) as [(q & Eq & Eg) | (Eq & Eg)];
      cbn [toString] in *; rewrite Hp, append_empty_r in Eg; rewrite Eg.
    + rewrite Eq, endsWith_append. split; [|discriminate].
      intros H. symmetry in H. now apply append_slash_neq in H.
    + now rewrite Eq.
  - rewrite E, (endsWith_two_slashes_one _ E).
    split; [reflexivity|]. split; [reflexivity|]. intros _.
    destruct (formatCanonicalURL_cases (OfString (toString url)))
      as [(q & Eq & _) | (_ & Eg)]; cbn [toString] in *.
    + rewrite Eq, endsWith_append in E. discriminate E.
    + now rewrite Eg, Hq, append_empty_r.
Qed.

Lemma formatCanonicalURL_query_one_slash_per_call_witness :
  String_endsWith (formatCanonicalURL (OfString "https://site.test/blog?tag=a//")) "/"
  = true
  /\ formatCanonicalURL
       (OfString (formatCanonicalURL (OfString "https://site.test/blog?page=2/")))
     = formatCanonicalURL (OfString "https://site.test/blog?page=2/").
Proof.
  split.
  - exact (proj1 (formatCanonicalURL_query_one_slash_per_call
                    (OfString "https://site.test/blog?tag=a//") eq_refl)).
  - exact (proj2 (proj2 (formatCanonicalURL_query_one_slash_per_call
                           (OfString "https://site.test/blog?page=2/") eq_refl))
             eq_refl).
Defined.


End CanonicalURLMore.

(** ** The resolved title, on every input *)

Section TitleMore.
Import JS BaseHead.

(** X4.  With an empty site title the resolved title is the page title
    alone, without a dangling separator, and the resolved title is empty
    only when there is neither a page title nor a site title. *)
Theorem title_without_site_title
  (props_title : option string) (site_title : string) :
  title props_title "" = default "" props_title
  /\ (title props_title site_title = ""
      <-> (props_title = None \/ props_title = Some "") /\ site_title = "").
Proof.
  split.
  - now destruct props_title as [[|a p]|].
  - destruct props_title as [[|a p]|], site_title as [|c s]; cbn;
      (split; [intros H; try discriminate H; auto
              | intros [[H|H] H']; try discriminate H; try discriminate H'; auto]).
Qed.

(** X5.  The resolved title always ends with the site title. *)
Theorem title_ends_with_site_title
  (props_title : option string) (site_title : string) :
  String_endsWith (title props_title site_title) site_title = true.
Proof.
  apply endsWith_spec.
  destruct site_title as [|c s].
  - exists (title props_title ""). now rewrite append_empty_r.
  - destruct props_title as [[|a p]|].
    + now exists "".
    + exists (String a p +:+ " | "). now rewrite append_assoc.
    + now exists "".
Qed.

End TitleMore.

(** ** The resolved image and the emitted tags *)

Section ImageAndTags.
Import JS SiteConfig BaseHead HeadTemplate.

(** X6.  Which image the resolver takes.  An [image] property is taken as
    it is, also with an empty [src], in which case nothing is resolved and
    the site's default image is not consulted; the default stands in only
    for an absent property.  An image with a non-empty [src] is resolved
    through the URL constructor and keeps its [alt]. *)
Theorem frontmatter_image_choice
  (URL_new : string -> string -> completion string)
  (cfg : Config) (astro : Astro) (h : Head) :
  frontmatter URL_new cfg astro = Normal h ->
  (forall img, p_image (props astro) = Some img -> src img = "" ->
               h_resolvedImage h = None)
  /\ (forall img, p_image (props astro) = Some img -> src img <> "" ->
                  exists href, URL_new (src img) (site astro) = Normal href
                               /\ h_resolvedImage h
                                  = Some {| src := href; alt := alt img |})
  /\ (p_image (props astro) = None ->
      forall img, SiteConfig.image cfg = Some img -> src img <> "" ->
                  exists href, URL_new (src img) (site astro) = Normal href
                               /\ h_resolvedImage h
                                  = Some {| src := href; alt := alt img |})
  /\ (p_image (props astro) = None -> SiteConfig.image cfg = None ->
      h_resolvedImage h = None).
Proof.
  intros H. rewrite frontmatter_bind in H.
  pose proof (resolvedImage_cases URL_new
                (image_or_default cfg (props astro)) (site astro)) as Hi.
  destruct (resolvedImage URL_new _ _) as [resolved|e] eqn:Er;
    [|discriminate H].
  cbn [mbind completion_bind] in H.
  destruct (URL_new (request_url astro) (site astro)) as [canonicalURL|e];
    [|discriminate H].
  cbn in H. injection H as <-. cbn [h_resolvedImage].
  assert (forall img, image_or_default cfg (props astro) = Some img ->
                      src img <> "" ->
                      exists href, URL_new (src img) (site astro) = Normal href
                                   /\ resolved = Some {| src := href; alt := alt img |})
    as Hsome.
  { intros img E Hne. rewrite E in Hi.
    apply String.eqb_neq in Hne. rewrite Hne in Hi.
    destruct (URL_new (src img) (site astro)) as [href|e]; [|discriminate Hi].
    exists href. split; [reflexivity | congruence]. }
  unfold image_or_default in *.
  repeat apply conj.
  - intros img E Hsrc. rewrite E, Hsrc in Hi. cbn in Hi. congruence.
  - intros img E Hne. apply Hsome; [now rewrite E | exact Hne].
  - intros E img Ec Hne. apply Hsome; [now rewrite E | exact Hne].
  - intros E Ec. rewrite E, Ec in Hi. congruence.
Qed.

Lemma frontmatter_image_choice_witness :
  let cfg :=
    {| SiteConfig.title := "Coderik";
       SiteConfig.image :=
         Some {| src := "https://coderik.nl/og.png"; alt := Some "Coderik" |};
       SiteConfig.socialLinks := [];
       SiteConfig.header_navLinks := [] |} in
  let astro :=
    {| props := {| p_title := None; p_description := None;
                   p_image := Some {| src := ""; alt := Some "cover" |};
                   p_pageType := None |};
       request_url := "https://coderik.nl/blog";
       site := "https://coderik.nl/" |} in
  exists h,
    frontmatter (fun input _ => Normal input) cfg astro = Normal h
    /\ h_resolvedImage h = None.
Proof.
  intros cfg astro. eexists. split; [reflexivity|].
  exact (proj1 (frontmatter_image_choice (fun input _ => Normal input)
                  cfg astro _ eq_refl)
           {| src := ""; alt := Some "cover" |} eq_refl eq_refl).
Defined.

(** X7.  The Twitter tags repeat the Open Graph tags: the url (which is the
    canonical link), the title and the description are the same in both
    blocks, and the image and its alternative text are in both blocks or in
    neither, each present exactly when the resolved image has a non-empty
    value for it. *)
Theorem page_metadata_twitter_repeats_open_graph (h : Head) :
  let tags := page_metadata h in
  (property_content "og:url" tags = Some (h_canonical h)
   /\ property_content "twitter:url" tags = Some (h_canonical h))
  /\ (property_content "og:title" tags = Some (h_title h)
      /\ property_content "twitter:title" tags = Some (h_title h))
  /\ (property_content "og:description" tags = Some (h_description h)
      /\ property_content "twitter:description" tags = Some (h_description h)
      /\ name_content "description" tags = Some (h_description h))
  /\ (property_content "og:image" tags = shown_value (resolved_src h)
      /\ property_content "twitter:image" tags = shown_value (resolved_src h))
  /\ (property_content "og:image:alt" tags = shown_value (resolved_alt h)
      /\ name_content "twitter:image:alt" tags = shown_value (resolved_alt h)).
Proof.
  cbv zeta. unfold page_metadata, when_truthy, shown_value.
  destruct (resolved_src h) as [v|], (resolved_alt h) as [w|];
    try destruct (Boolean_string (Some v));
    try destruct (Boolean_string (Some w));
    repeat split.
Qed.

End ImageAndTags.

(** ** The scroll listener as a transition system *)

Section ScrollListenerMore.
Import Header HeaderView.
Local Open Scope Z_scope.

(** The four ways an event is handled. *)
Lemma scroll_listener_cases (s : Z) (st : State) :
  (s < 150
   /\ scroll_listener s st = set_classList (classList_remove "header-hide") st)
  \/ (150 <= s /\ s - oldScroll st > 150
      /\ scroll_listener s st
         = set_oldScroll s (set_classList (classList_add "header-hide") st))
  \/ (150 <= s /\ oldScroll st - s > 150
      /\ scroll_listener s st
         = set_oldScroll s (set_classList (classList_remove "header-hide") st))
  \/ (150 <= s /\ s - oldScroll st <= 150 /\ oldScroll st - s <= 150
      /\ scroll_listener s st = st).
Proof.
  destruct (Z.lt_ge_cases s 150) as [H | H].
  - left. split; [exact H | now apply scroll_listener_top].
  - destruct (Z.le_gt_cases (s - oldScroll st) 150) as [Hd | Hd].
    + destruct (Z.le_gt_cases (oldScroll st - s) 150) as [Hu | Hu].
      * right; right; right. repeat split; try assumption.
        now apply scroll_listener_still.
      * right; right; left. repeat split; [assumption | lia |].
        apply scroll_listener_up; [assumption | lia].
    + right; left. repeat split; [assumption | lia |].
      apply scroll_listener_down; [assumption | lia].
Qed.

Lemma classList_remove_again (token : string) (classes : list string) :
  classList_remove token (classList_remove token classes)
  = classList_remove token classes.
Proof.
  unfold classList_remove. induction classes as [|c classes IH]; [reflexivity|].
  cbn [List.filter]. destruct (negb (String.eqb token c)) eqn:E.
  - cbn [List.filter]. now rewrite E, IH.
  - exact IH.
Qed.

(** X8.  The listener's two independent [if]s after the early return act as
    the chain "else if ... else if ... otherwise nothing": once the first
    has recorded the offset, the second cannot fire in the same event. *)
Theorem scroll_listener_is_else_if_chain (s : Z) (st : State) :
  scroll_listener s st = scroll_transition s st.
Proof.
  unfold scroll_listener, scroll_transition.
  destruct (s <? 150); [reflexivity|].
  destruct (s - oldScroll st >? 150); [|reflexivity].
  cbn [oldScroll set_oldScroll set_classList]. now rewrite Z.sub_diag.
Qed.

(** X9.  A second scroll event at the same offset changes nothing: the
    listener is idempotent in the offset. *)
Theorem scroll_listener_same_offset_again (s : Z) (st : State) :
  scroll_listener s (scroll_listener s st) = scroll_listener s st.
Proof.
  destruct (scroll_listener_cases s st)
    as [(H & ->) | [(H1 & H2 & ->) | [(H1 & H2 & ->) | (H1 & H2 & H3 & E)]]].
  - rewrite scroll_listener_top by exact H.
    unfold set_classList. cbn [oldScroll classList rendered_scroll].
    now rewrite classList_remove_again.
  - apply scroll_listener_still; cbn [oldScroll set_oldScroll]; lia.
  - apply scroll_listener_still; cbn [oldScroll set_oldScroll]; lia.
  - now rewrite !E.
Qed.

(** X10.  The recorded offset only ever becomes the current offset, and
    after an event at offset 150 or more it lies within 150 of the current
    offset. *)
Theorem scroll_listener_recorded_offset (s : Z) (st : State) :
  (oldScroll (scroll_listener s st) = oldScroll st
   \/ oldScroll (scroll_listener s st) = s)
  /\ (150 <= s ->
      -150 <= oldScroll (scroll_listener s st) - s <= 150).
Proof.
  destruct (scroll_listener_cases s st)
    as [(H & ->) | [(H1 & H2 & ->) | [(H1 & H2 & ->) | (H1 & H2 & H3 & ->)]]];
    cbn [oldScroll set_oldScroll set_classList]; split; try lia; auto.
Qed.

Lemma scroll_listener_recorded_offset_witness :
  -150 <= oldScroll (scroll_listener 1000 (mount 0 0)) - 1000 <= 150.
Proof.
  apply (proj2 (scroll_listener_recorded_offset 1000 (mount 0 0))). lia.
Defined.

(** X11.  What can change the hidden flag.  It is set only by an event at
    150 or more that lies more than 150 below the recorded offset; it is
    cleared only by an event below 150 or one more than 150 above the
    recorded offset; so after any sequence of events the header is hidden
    only if the last offset was 150 or more. *)
Theorem scroll_listener_hidden_changes (s : Z) (st : State) (events : list Z) :
  (hidden (scroll_listener s st) = true ->
   hidden st = true \/ (150 <= s /\ s - oldScroll st > 150))
  /\ (hidden st = true -> hidden (scroll_listener s st) = false ->
      s < 150 \/ oldScroll st - s > 150)
  /\ (hidden (scroll_events (events ++ [s]) st) = true -> 150 <= s).
Proof.
  assert (forall st', hidden (scroll_listener s st') = true -> 150 <= s) as Hlast.
  { intros st' Hh. destruct (Z.lt_ge_cases s 150) as [H | H]; [|exact H].
    rewrite (scroll_listener_top s st' H), hidden_remove in Hh. discriminate. }
  split; [|split].
  - destruct (scroll_listener_cases s st)
      as [(H & ->) | [(H1 & H2 & ->) | [(H1 & H2 & ->) | (H1 & H2 & H3 & ->)]]].
    + rewrite hidden_remove. discriminate.
    + now right.
    + unfold hidden. cbn [classList set_oldScroll set_classList].
      rewrite classList_contains_remove. discriminate.
    + now left.
  - intros Hh.
    destruct (scroll_listener_cases s st)
      as [(H & ->) | [(H1 & H2 & ->) | [(H1 & H2 & ->) | (H1 & H2 & H3 & ->)]]].
    + now left.
    + unfold hidden. cbn [classList set_oldScroll set_classList].
      rewrite classList_contains_add. discriminate.
    + now right.
    + congruence.
  - unfold scroll_events. rewrite fold_left_app. cbn [fold_left].
    apply Hlast.
Qed.

Lemma scroll_listener_hidden_changes_witness :
  hidden (scroll_events ([100; 30] ++ [200]) (mount 0 0)) = true
  /\ 150 <= 200.
Proof.
  split; [reflexivity|].
  exact (proj2 (proj2 (scroll_listener_hidden_changes 200 (mount 0 0) [100; 30]))
           eq_refl).
Defined.

(** X12.  The listener writes to nothing but the [header-hide] class and
    the recorded offset: every other class of the header and the rendered
    scroll value are as before. *)
Theorem scroll_listener_other_classes (s : Z) (st : State) (token : string) :
  token <> "header-hide" ->
  classList_contains token (classList (scroll_listener s st))
  = classList_contains token (classList st)
  /\ rendered_scroll (scroll_listener s st) = rendered_scroll st.
Proof.
  intros Hne. apply String.eqb_neq in Hne.
  destruct (scroll_listener_cases s st)
    as [(H & ->) | [(H1 & H2 & ->) | [(H1 & H2 & ->) | (H1 & H2 & H3 & ->)]]];
    cbn [classList rendered_scroll set_oldScroll set_classList];
    rewrite ?classList_contains_remove, ?classList_contains_add, ?Hne;
    now split.
Qed.

Lemma scroll_listener_other_classes_witness :
  classList_contains "relative" (classList (scroll_listener 400 (mount 0 0)))
  = classList_contains "relative" (classList (mount 0 0))
  /\ rendered_scroll (scroll_listener 400 (mount 0 0)) = rendered_scroll (mount 0 0).
Proof.
  apply (scroll_listener_other_classes 400 (mount 0 0) "relative"). discriminate.
Defined.

End ScrollListenerMore.

(** ** The navigation drawer under repeated toggles *)

Section NavDrawerMore.
Import Header HeaderView.

(** X13.  On every document, whatever its inline styles, a third toggle
    undoes the second: from the first toggle on the drawer alternates
    between two documents. *)
Theorem toggleNavDrawer_thrice (doc : Document) :
  toggleNavDrawer (toggleNavDrawer (toggleNavDrawer doc)) = toggleNavDrawer doc.
Proof.
  destruct doc as [[transform|] [display|]]; try reflexivity.
  unfold toggleNavDrawer. cbn [nav_drawer nav_drawer_mask].
  destruct (String.eqb transform "translateX(0%)"); reflexivity.
Qed.

Lemma toggles_initial (n : nat) :
  toggles n initial_document
  = match n with
    | O => initial_document
    | S _ => if Nat.even n then document_closed else document_open
    end.
Proof.
  induction n as [|n IH]; [reflexivity|].
  cbn [toggles]. rewrite IH. destruct n as [|n]; [reflexivity|].
  rewrite (Nat.even_succ (S n)), <- Nat.negb_even.
  now destruct (Nat.even (S n)).
Qed.

(** X14.  After [n] clicks on a freshly rendered page the drawer is open
    with its mask displayed when [n] is odd, and closed with the mask
    removed when [n] is even. *)
Theorem toggles_parity (n : nat) :
  shown (toggles n initial_document) = if Nat.even n then closed else open.
Proof.
  rewrite toggles_initial. destruct n as [|n]; [reflexivity|].
  now destruct (Nat.even (S n)).
Qed.

(** X15.  The mask follows the drawer: on every document the toggle can be
    called on, the mask is displayed exactly when the drawer is slid in;
    and a toggle neither creates nor removes an element. *)
Theorem reachable_mask_follows_drawer (doc : Document) :
  reachable doc ->
  (mask_display (shown doc) = Some "block"
   <-> drawer_transform (shown doc) = Some "translateX(0%)")
  /\ (nav_drawer (toggleNavDrawer doc) = None <-> nav_drawer doc = None)
  /\ (nav_drawer_mask (toggleNavDrawer doc) = None <-> nav_drawer_mask doc = None).
Proof.
  intros H. split.
  - destruct (reachable_cases doc H) as [[Hd Hm] | [-> | ->]];
      [|split; reflexivity|split; discriminate].
    destruct doc as [d m]. cbn in Hd, Hm.
    destruct Hd as [-> | ->], Hm as [-> | ->]; cbn; split; discriminate.
  - destruct doc as [[transform|] [display|]]; cbn; try tauto.
    destruct (String.eqb transform "translateX(0%)"); cbn; split; split; discriminate.
Qed.

Lemma reachable_mask_follows_drawer_witness :
  mask_display (shown (toggleNavDrawer initial_document)) = Some "block"
  <-> drawer_transform (shown (toggleNavDrawer initial_document))
      = Some "translateX(0%)".
Proof.
  exact (proj1 (reachable_mask_follows_drawer (toggleNavDrawer initial_document)
                  (reachable_toggle _
                     (reachable_rendered initial_document
                        (conj (or_introl eq_refl) (or_introl eq_refl)))))).
Defined.

End NavDrawerMore.

(** ** The header's social links as a list *)

Section SocialLinksMore.
Import JS SiteConfig Header HeaderView.

Lemma icon_after_again (link : SocialLink) :
  icon_after (socialLinks_callback link).1 = icon_after link.
Proof.
  rewrite socialLinks_callback_entry. unfold icon_after.
  cbn [sl_header sl_icon].
  destruct (sl_header link) as [| |h]; try reflexivity.
  now destruct (String_includes h "i-").
Qed.

(** The callback finds nothing left to do on an entry it has handled. *)
Lemma socialLinks_callback_again (link : SocialLink) :
  socialLinks_callback (socialLinks_callback link).1 = socialLinks_callback link.
Proof.
  rewrite (surjective_pairing (socialLinks_callback (socialLinks_callback link).1)).
  rewrite (surjective_pairing (socialLinks_callback link)) at 3.
  f_equal.
  - rewrite (socialLinks_callback_entry (socialLinks_callback link).1).
    rewrite icon_after_again.
    now rewrite !socialLinks_callback_entry.
  - rewrite !socialLinks_callback_keeps.
    now rewrite socialLinks_callback_entry.
Qed.

Lemma Array_filter_again (callback : SocialLink -> SocialLink * bool)
      (index : nat) (links : list SocialLink) :
  (forall link, callback (callback link).1 = callback link) ->
  Array_filter callback index ((fun link => (callback link).1) <$> links)
  = Array_filter callback index links.
Proof.
  intros Hcb. revert index.
  induction links as [|link rest IH]; intros index; [reflexivity|].
  rewrite fmap_cons. cbn [Array_filter]. rewrite Hcb, IH.
  reflexivity.
Qed.

(** X16.  Computing the header's social links a second time, on the
    configuration the first computation left, writes nothing more and keeps
    the same entries. *)
Theorem socialLinks_again (cfg : Config) :
  Header.socialLinks (Header.socialLinks cfg).1 = Header.socialLinks cfg.
Proof.
  unfold Header.socialLinks at 1.
  rewrite socialLinks_store, Array_filter_again by apply socialLinks_callback_again.
  unfold Header.socialLinks.
  destruct (Array_filter socialLinks_callback 0 (SiteConfig.socialLinks cfg))
    as [links' kept].
  reflexivity.
Qed.

Lemma Array_filter_kept_bounds (callback : SocialLink -> SocialLink * bool)
      (index : nat) (links : list SocialLink) :
  Forall (fun j => (index <= j < index + length links)%nat)
         (Array_filter callback index links).2.
Proof.
  apply Forall_forall. intros j Hj.
  apply Array_filter_kept in Hj as (link & Hle & Hl & _).
  apply lookup_lt_Some in Hl. lia.
Qed.

Lemma Array_filter_kept_increasing (callback : SocialLink -> SocialLink * bool)
      (index : nat) (links : list SocialLink) (a b x y : nat) :
  (Array_filter callback index links).2 !! a = Some x ->
  (Array_filter callback index links).2 !! b = Some y ->
  (a < b)%nat -> (x < y)%nat.
Proof.
  revert index a b; induction links as [|link rest IH]; intros index a b.
  - cbn. discriminate.
  - cbn [Array_filter].
    pose proof (Array_filter_kept_bounds callback (S index) rest) as Hb.
    specialize (IH (S index)).
    destruct (callback link) as [link' keep].
    destruct (Array_filter callback (S index) rest) as [rest' kept].
    cbn [snd] in *. destruct keep; [|apply IH].
    destruct a as [|a], b as [|b]; cbn; intros Ha Hb' Hlt; try lia.
    + injection Ha as <-.
      pose proof (proj1 (Forall_lookup _ _) Hb b y Hb'). cbn in *. lia.
    + apply (IH a b); [assumption | assumption | lia].
Qed.

(** X17.  The header's list refers to entries of the configuration in
    their order there: every reference is within the list of social links,
    references further down the header's list point further down the
    configuration, and no entry is referred to twice. *)
Theorem socialLinks_in_order (cfg : Config) :
  Forall (fun i => (i < length (SiteConfig.socialLinks cfg))%nat)
         (Header.socialLinks cfg).2
  /\ (forall a b x y,
         (Header.socialLinks cfg).2 !! a = Some x ->
         (Header.socialLinks cfg).2 !! b = Some y ->
         (a < b)%nat -> (x < y)%nat)
  /\ NoDup (Header.socialLinks cfg).2
  /\ (length (Header.socialLinks cfg).2 <= length (SiteConfig.socialLinks cfg))%nat.
Proof.
  assert ((Header.socialLinks cfg).2
          = (Array_filter socialLinks_callback 0 (SiteConfig.socialLinks cfg)).2) as E.
  { unfold Header.socialLinks. now destruct (Array_filter _ _ _). }
  rewrite !E.
  pose proof (Array_filter_kept_bounds socialLinks_callback 0
                (SiteConfig.socialLinks cfg)) as Hb.
  pose proof (Array_filter_kept_increasing socialLinks_callback 0
                (SiteConfig.socialLinks cfg)) as Hi.
  assert (NoDup (Array_filter socialLinks_callback 0 (SiteConfig.socialLinks cfg)).2)
    as Hnd.
  { apply NoDup_alt. intros a b x Ha Hb'.
    destruct (Nat.lt_trichotomy a b) as [Hlt | [-> | Hlt]]; [|reflexivity|].
    - pose proof (Hi a b x x Ha Hb' Hlt). lia.
    - pose proof (Hi b a x x Hb' Ha Hlt). lia. }
  split; [|split; [|split]].
  - eapply Forall_impl; [exact Hb|]. cbn. intros; lia.
  - exact Hi.
  - exact Hnd.
  - apply (Nat.le_trans _ (length (seq 0 (length (SiteConfig.socialLinks cfg)))));
      [|now rewrite length_seq].
    apply submseteq_length, NoDup_submseteq; [exact Hnd|].
    intros j Hj. apply elem_of_seq.
    pose proof (proj1 (Forall_forall _ _) Hb j Hj). cbn in *. lia.
Qed.

Lemma Array_filter_deref (callback : SocialLink -> SocialLink * bool)
      (before links : list SocialLink) :
  omap (fun j => (before ++ (Array_filter callback (length before) links).1)%list !! j)
       (Array_filter callback (length before) links).2
  = (fun link => (callback link).1)
      <$> List.filter (fun link => (callback link).2) links.
Proof.
  revert before; induction links as [|link rest IH]; intros before; [reflexivity|].
  cbn [Array_filter List.filter].
  specialize (IH (before ++ [(callback link).1])%list).
  rewrite length_app, Nat.add_1_r in IH.
  destruct (callback link) as [link' keep] eqn:Ec.
  destruct (Array_filter callback (S (length before)) rest) as [rest' kept].
  cbn [fst snd] in *. rewrite <- app_assoc in IH. cbn [app] in IH.
  destruct keep.
  - cbn [omap list_omap]. rewrite list_lookup_middle by reflexivity.
    rewrite fmap_cons, Ec. cbn [fst]. f_equal. exact IH.
  - exact IH.
Qed.

(** X18.  The links the header renders are the social links of the
    configuration whose [header] is truthy, in the configuration's order,
    each with the icon the computation gave it. *)
Theorem rendered_socialLinks_filter (cfg : Config) :
  rendered_socialLinks cfg
  = (fun link => {| sl_text := sl_text link; sl_href := sl_href link;
                    sl_icon := icon_after link; sl_header := sl_header link |})
      <$> List.filter (fun link => truthy (sl_header link))
                      (SiteConfig.socialLinks cfg).
Proof.
  unfold rendered_socialLinks, Header.socialLinks.
  pose proof (Array_filter_deref socialLinks_callback []
                (SiteConfig.socialLinks cfg)) as H.
  cbn [length app] in H.
  destruct (Array_filter socialLinks_callback 0 (SiteConfig.socialLinks cfg))
    as [links' kept].
  cbn [fst snd SiteConfig.socialLinks] in *. rewrite H. clear H.
  induction (SiteConfig.socialLinks cfg) as [|link rest IH]; [reflexivity|].
  cbn [List.filter]. rewrite socialLinks_callback_keeps.
  destruct (truthy (sl_header link)); [|exact IH].
  rewrite !fmap_cons, IH. now rewrite socialLinks_callback_entry.
Qed.

End SocialLinksMore.

(** ** From the request to the emitted canonical tags *)

Section CanonicalTags.
Import JS SiteConfig BaseHead HeadTemplate.

(** X19.  When the resolver completes, the canonical link, [og:url] and
    [twitter:url] all carry the formatted serialisation of the request URL
    resolved against the site; that value is never empty, and it ends with
    a slash whenever the serialisation has no query component. *)
Theorem frontmatter_canonical_tags
  (URL_new : string -> string -> completion string)
  (cfg : Config) (astro : Astro) (h : Head) :
  frontmatter URL_new cfg astro = Normal h ->
  exists canonicalURL,
    URL_new (request_url astro) (site astro) = Normal canonicalURL
    /\ In (LinkRel "canonical" (formatCanonicalURL (OfURL canonicalURL)))
          (page_metadata h)
    /\ property_content "og:url" (page_metadata h)
       = Some (formatCanonicalURL (OfURL canonicalURL))
    /\ property_content "twitter:url" (page_metadata h)
       = Some (formatCanonicalURL (OfURL canonicalURL))
    /\ formatCanonicalURL (OfURL canonicalURL) <> ""
    /\ (String_includes canonicalURL "?" = false ->
        String_endsWith (formatCanonicalURL (OfURL canonicalURL)) "/" = true).
Proof.
  intros H. rewrite frontmatter_bind in H.
  destruct (resolvedImage URL_new _ _) as [resolved|e]; [|discriminate H].
  cbn [mbind completion_bind] in H.
  destruct (URL_new (request_url astro) (site astro)) as [canonicalURL|e];
    [|discriminate H].
  cbn in H. injection H as <-. exists canonicalURL.
  split; [reflexivity|]. split; [now left|].
  split; [reflexivity|]. split.
  - unfold page_metadata, when_truthy. cbn [h_canonical h_resolvedImage].
    destruct (resolved_src _) as [v|], (resolved_alt _) as [w|];
      try destruct (Boolean_string (Some v));
      try destruct (Boolean_string (Some w)); reflexivity.
  - split.
    + apply formatCanonicalURL_not_empty.
    + intros Hq. now apply formatCanonicalURL_no_query_shape.
Qed.

Lemma frontmatter_canonical_tags_witness :
  let astro :=
    {| props := {| p_title := Some "Blog"; p_description := None;
                   p_image := None; p_pageType := Some article |};
       request_url := "https://coderik.nl/blog";
       site := "https://coderik.nl/" |} in
  exists h canonicalURL,
    frontmatter (fun input _ => Normal input) siteConfig astro = Normal h
    /\ property_content "og:url" (page_metadata h)
       = Some (formatCanonicalURL (OfURL canonicalURL))
    /\ canonicalURL = "https://coderik.nl/blog".
Proof.
  intros astro.
  destruct (frontmatter_canonical_tags (fun input _ => Normal input)
              siteConfig astro _ eq_refl)
    as (canonicalURL & Hc & _ & Hog & _).
  eexists. exists canonicalURL. split; [reflexivity|]. split; [exact Hog|].
  now injection Hc.
Defined.

End CanonicalTags.

(** ** An invariant of the scroll listener *)

Section ScrollInvariant.
Import Header HeaderView.
Local Open Scope Z_scope.

Lemma scroll_listener_hidden_recorded (s : Z) (st : State) :
  (hidden st = true -> 150 <= oldScroll st) ->
  hidden (scroll_listener s st) = true ->
  150 <= oldScroll (scroll_listener s st).
Proof.
  intros Hinv.
  destruct (scroll_listener_cases s st)
    as [(H & ->) | [(H1 & H2 & ->) | [(H1 & H2 & ->) | (H1 & H2 & H3 & ->)]]].
  - rewrite hidden_remove. discriminate.
  - intros _. exact H1.
  - intros _. exact H1.
  - exact Hinv.
Qed.

(** X20.  Starting from a shown header, whatever scroll events follow,
    whenever the header is hidden the recorded offset is at least 150. *)
Theorem scroll_events_hidden_recorded (events : list Z) (st : State) :
  hidden st = false ->
  hidden (scroll_events events st) = true ->
  150 <= oldScroll (scroll_events events st).
Proof.
  intros H0.
  assert (hidden st = true -> 150 <= oldScroll st) as Hinv by congruence.
  clear H0. revert st Hinv. unfold scroll_events.
  induction events as [|s events IH]; intros st Hinv; [exact Hinv|].
  cbn [fold_left]. apply IH. now apply scroll_listener_hidden_recorded.
Qed.

Lemma scroll_events_hidden_recorded_witness :
  hidden (scroll_events [100; 400; 450] (mount 0 0)) = true
  /\ 150 <= oldScroll (scroll_events [100; 400; 450] (mount 0 0)).
Proof.
  split; [reflexivity|].
  exact (scroll_events_hidden_recorded [100; 400; 450] (mount 0 0)
           eq_refl eq_refl).
Defined.

End ScrollInvariant.
